(** * FormEase-SEA: the PDF form-filling pipeline

    A shallow embedding of the TypeScript sources
      - [lib/utils/pdf-processor.ts]      (cleanAIResponse, validatePDFFields,
                                           sanitizeFieldValues, downloadPDFFromUrl)
      - [lib/utils/pdf-lib-processor.ts]  (extractPDFFieldsWithLib, fillPDFFieldsWithLib)
      - [app/(chat)/api/fill-pdf/route.ts] (extractPDFFields, fillPDFFields, POST)
      - [lib/ai/tools/extract-pdf-form-spec.ts] (extractJsonObject, the tool's
                                           [execute])
      - the fillPdfForm tool (the route's helpers again, and its [execute])
      - [app/(chat)/api/chat/route.ts]    (preprocessMessage)
    and the properties of the specification that were checked against them.

    Conventions.
      - A JavaScript string is a [string]: one [ascii] per UTF-16 code unit,
        code units 0..255 (the Latin-1 range).
      - A JavaScript object used as a record of values is a [gmap string _]
        of its own enumerable properties.  A loop over [Object.entries] is a
        [map_fold]: each key is met once; the order of the turns is the
        map's, and only the order of console lines depends on it.
      - A function that can throw returns [Except]; [Throw] carries the
        message of the [Error].
      - pdf-lib, pdf-parse, the model, [JSON.parse], [fetch] and the blob
        store are not part of the repository: the form of a loaded document
        is modelled from pdf-lib's API, the others are variables of the
        section that defines the request handler. *)

From Stdlib Require Import String Ascii ZArith Lia Bool.
From stdpp Require Import base option list strings gmap fin_maps pretty.

#[local] Set Warnings "-register-all".

(* ===================================================================== *)
(** * 1. JavaScript values and strings                                    *)
(* ===================================================================== *)

(** What [JSON.parse] can return (and [undefined], the value of a missing
    property).  The sources never compute with a number: they test it for
    truth and print it.  A number is therefore held as the string that
    [Number.prototype.toString] prints for it ("42", "-7", "0.5", "1e+21"),
    which tells two numbers apart except 0 and -0, both printed "0". *)
Inductive JsValue :=
| JsUndefined
| JsNull
| JsBool (b : bool)
| JsNum (shown : string)
| JsStr (s : string)
| JsArr (l : list JsValue)
| JsObj (m : gmap string JsValue).

(** [typeof v] *)
Definition typeof (v : JsValue) : string :=
  match v with
  | JsUndefined => "undefined"
  | JsNull => "object"
  | JsBool _ => "boolean"
  | JsNum _ => "number"
  | JsStr _ => "string"
  | JsArr _ => "object"
  | JsObj _ => "object"
  end.

(** ToBoolean: what [if (v)] and [a && v] test. *)
Definition truthy (v : JsValue) : bool :=
  match v with
  | JsUndefined => false
  | JsNull => false
  | JsBool b => b
  | JsNum shown => negb (String.eqb shown "0") && negb (String.eqb shown "NaN")
  | JsStr s => negb (String.eqb s "")
  | JsArr _ => true
  | JsObj _ => true
  end.

(** [sep]-separated concatenation, as [Array.prototype.join]. *)
Fixpoint join (sep : string) (l : list string) : string :=
  match l with
  | [] => ""
  | [s] => s
  | s :: rest => s +:+ sep +:+ join sep rest
  end.

(** The number of elements of an array, of characters of a string. *)
Definition numberOfNat (n : nat) : JsValue := JsNum (pretty n).

(** Every object that [v.toString()] has to print inherits its [toString]
    from [Object.prototype]: [v] is not an object with a property of its own
    called [toString], nor an array with such an element.  (A property that
    [JSON.parse] creates is never a function, so calling it, or converting
    the object to a string, throws a [TypeError].) *)
Fixpoint inheritsToString (v : JsValue) : bool :=
  match v with
  | JsArr l => forallb inheritsToString l
  | JsObj m => bool_decide (m !! "toString" = None)
  | _ => true
  end.

(** [v.toString()] for a truthy [v] ([null] and [undefined] have no such
    method; they are falsy and never reach it) that satisfies
    [inheritsToString]; where it does not, the call throws and this
    function says nothing of it.  An array joins its elements with commas,
    printing [null] and [undefined] as nothing. *)
Fixpoint toString (v : JsValue) : string :=
  match v with
  | JsUndefined => "undefined"
  | JsNull => "null"
  | JsBool true => "true"
  | JsBool false => "false"
  | JsNum shown => shown
  | JsStr s => s
  | JsArr l =>
      join "," (map (fun e => match e with
                              | JsUndefined | JsNull => ""
                              | _ => toString e
                              end) l)
  | JsObj _ => "[object Object]"
  end.

(** [a === b] where [b] is a string. *)
Definition strictEqualsString (a : JsValue) (b : string) : bool :=
  match a with
  | JsStr s => String.eqb s b
  | _ => false
  end.

(** ** Exceptions *)

Inductive Except (A : Type) : Type :=
| Ok (a : A)
| Throw (message : string).
Arguments Ok {A} a.
Arguments Throw {A} message.

#[global] Instance Except_ret : MRet Except := fun A a => Ok a.

#[global] Instance Except_bind : MBind Except := fun A B k m =>
  match m with
  | Ok a => k a
  | Throw e => Throw e
  end.

(** ** String primitives *)

(** White space and line terminators stripped by [String.prototype.trim]
    (TAB, LF, VT, FF, CR, SP and NBSP are the ones below 256). *)
Definition isWhiteSpace (c : ascii) : bool :=
  match nat_of_ascii c with
  | 9 | 10 | 11 | 12 | 13 | 32 | 160 => true
  | _ => false
  end.

Fixpoint trimStart (s : string) : string :=
  match s with
  | EmptyString => EmptyString
  | String c s' => if isWhiteSpace c then trimStart s' else s
  end.

Fixpoint trimEnd (s : string) : string :=
  match s with
  | EmptyString => EmptyString
  | String c s' =>
      match trimEnd s' with
      | EmptyString => if isWhiteSpace c then EmptyString else String c EmptyString
      | r => String c r
      end
  end.

Definition trim (s : string) : string := trimEnd (trimStart s).

(** [toLowerCase] on one code unit: A-Z, and the Latin-1 capitals
    U+00C0..U+00DE except the multiplication sign U+00D7. *)
Definition lowerChar (c : ascii) : ascii :=
  let n := nat_of_ascii c in
  if ((65 <=? n) && (n <=? 90)) || ((192 <=? n) && (n <=? 222) && negb (n =? 215))
  then ascii_of_nat (n + 32)
  else c.

Fixpoint toLowerCase (s : string) : string :=
  match s with
  | EmptyString => EmptyString
  | String c s' => String (lowerChar c) (toLowerCase s')
  end.

Definition startsWith (s p : string) : bool := String.prefix p s.

(** [s.substring(from)] *)
Fixpoint substringFrom (from : nat) (s : string) : string :=
  match from, s with
  | O, _ => s
  | S n, EmptyString => EmptyString
  | S n, String _ s' => substringFrom n s'
  end.

(** [s.substring(0, to)] *)
Fixpoint substringTo (to : nat) (s : string) : string :=
  match to, s with
  | O, _ => EmptyString
  | S n, EmptyString => EmptyString
  | S n, String c s' => String c (substringTo n s')
  end.

(** [s.substring(from, to)] and, for indices within the string,
    [s.slice(from, to)]: an empty string when [to <= from]. *)
Definition substring (from to : nat) (s : string) : string :=
  substringTo (to - from) (substringFrom from s).

Definition endsWith (s p : string) : bool :=
  (String.length p <=? String.length s) &&
  String.eqb (substringFrom (String.length s - String.length p) s) p.

(** [s.indexOf(c)] for a one-character search string: -1 when absent. *)
Fixpoint indexOf (c : ascii) (s : string) : Z :=
  match s with
  | EmptyString => (-1)%Z
  | String x s' =>
      if Ascii.eqb x c then 0%Z
      else match indexOf c s' with
           | Z.neg _ => (-1)%Z
           | i => (i + 1)%Z
           end
  end.

(** [s.lastIndexOf(c)] *)
Fixpoint lastIndexOf (c : ascii) (s : string) : Z :=
  match s with
  | EmptyString => (-1)%Z
  | String x s' =>
      match lastIndexOf c s' with
      | Z.neg _ => if Ascii.eqb x c then 0%Z else (-1)%Z
      | i => (i + 1)%Z
      end
  end.

(* ===================================================================== *)
(** * 2. lib/utils/pdf-processor.ts                                       *)
(* ===================================================================== *)

(** [interface PDFField].  TypeScript's types are erased at run time and
    [validatePDFFields] tests [typeof field.name] and [typeof field.type],
    so these two properties hold arbitrary values; [maxLength?: number] is
    [None] when the property is [undefined]. *)
Record PDFField := {
  name : JsValue;
  label : JsValue;
  type : JsValue;
  maxLength : option nat
}.

(** [cleanAIResponse] *)
Definition cleanAIResponse (responseText : string) : string :=
  let cleaned := trim responseText in
  let cleaned :=
    if startsWith cleaned "```json" then substringFrom 7 cleaned else cleaned in
  let cleaned :=
    if endsWith cleaned "```"
    then substring 0 (String.length cleaned - 3) cleaned else cleaned in
  trim cleaned.

(** [validatePDFFields]; the argument is an array, so [Array.isArray] holds. *)
Definition validatePDFFields (fields : list PDFField) : bool :=
  forallb (fun field =>
             String.eqb (typeof (name field)) "string" &&
             String.eqb (typeof (type field)) "string") fields.

(** [fields.find(f => f.name === fieldName)] *)
Definition findField (fields : list PDFField) (fieldName : string) : option PDFField :=
  List.find (fun f => strictEqualsString (name f) fieldName) fields.

(** [field.maxLength && sanitizedValue.length > field.maxLength]:
    [undefined] and [0] are falsy. *)
Definition exceedsMaxLength (field : PDFField) (sanitizedValue : string) : bool :=
  match maxLength field with
  | None => false
  | Some O => false
  | Some n => n <? String.length sanitizedValue
  end.

(** The body of the [if (field && value)] branch: the value stored, for a
    value on which [toString] can be called (see [inheritsToString]). *)
Definition sanitizedValueOf (field : PDFField) (value : JsValue) : string :=
  let sanitizedValue := trim (toString value) in
  if exceedsMaxLength field sanitizedValue
  then substring 0 (default 0 (maxLength field)) sanitizedValue
  else sanitizedValue.

(** [sanitized[fieldName] = sanitizedValue] on an object created by [{}]:
    an own data property is created, except for the key [__proto__], whose
    assignment reaches the setter inherited from [Object.prototype]; that
    setter ignores a string. *)
Definition setProperty (sanitized : gmap string string) (fieldName sanitizedValue : string)
  : gmap string string :=
  if String.eqb fieldName "__proto__" then sanitized
  else <[fieldName := sanitizedValue]> sanitized.

(** One turn of the loop over [Object.entries(fieldValues)]. *)
Definition sanitizeEntry (fields : list PDFField)
    (fieldName : string) (value : JsValue) (sanitized : gmap string string)
  : gmap string string :=
  match findField fields fieldName with
  | Some field =>
      if truthy value
      then setProperty sanitized fieldName (sanitizedValueOf field value)
      else sanitized
  | None => sanitized
  end.

(** [sanitizeFieldValues]; [fieldValues] holds the own enumerable properties
    that [Object.entries] lists (each key once).  This is the record the
    function returns; it returns none, and throws a [TypeError], when the
    call of [toString] does on a value the loop reaches (see
    [inheritsToString]). *)
Definition sanitizeFieldValues (fieldValues : gmap string JsValue) (fields : list PDFField)
  : gmap string string :=
  map_fold (sanitizeEntry fields) ∅ fieldValues.

(** The sanitized record seen again as a record of JavaScript values. *)
Definition asValues (m : gmap string string) : gmap string JsValue := JsStr <$> m.

(* ===================================================================== *)
(** * 3. lib/ai/tools/extract-pdf-form-spec.ts                            *)
(* ===================================================================== *)

(** [\w] of a regular expression. *)
Definition isWordChar (c : ascii) : bool :=
  let n := nat_of_ascii c in
  ((48 <=? n) && (n <=? 57)) || ((65 <=? n) && (n <=? 90)) ||
  (n =? 95) || ((97 <=? n) && (n <=? 122)).

Definition wordBefore (prev : option ascii) : bool :=
  match prev with
  | Some c => isWordChar c
  | None => false
  end.

Definition wordAhead (s : string) : bool :=
  match s with
  | String c _ => isWordChar c
  | EmptyString => false
  end.

(** [/\bW\b/] matches at the head of [s], where [prev] is the character
    before it.  [W] begins and ends with a word character (True, False),
    so each [\b] asks for a non-word character, or no character, on the
    outer side. *)
Definition matchesWordAt (w : string) (prev : option ascii) (s : string) : bool :=
  negb (wordBefore prev) && String.prefix w s &&
  negb (wordAhead (substringFrom (String.length w) s)).

(** [s.replace(/\bW\b/g, r)], scanning from the left; [skip] counts the
    characters of the match in progress that are still to be passed. *)
Fixpoint replaceWordFrom (w r : string) (skip : nat) (prev : option ascii) (s : string)
  : string :=
  match s with
  | EmptyString => EmptyString
  | String c s' =>
      match skip with
      | S k => replaceWordFrom w r k (Some c) s'
      | O =>
          if matchesWordAt w prev s
          then r +:+ replaceWordFrom w r (String.length w - 1) (Some c) s'
          else String c (replaceWordFrom w r 0 (Some c) s')
      end
  end.

Definition replaceWord (w r s : string) : string := replaceWordFrom w r 0 None s.

(** [t.replace(/^```(?:json)?/i, '')] *)
Definition stripLeadingFence (t : string) : string :=
  if startsWith t "```" then
    let rest := substringFrom 3 t in
    if String.eqb (toLowerCase (substringTo 4 rest)) "json"
    then substringFrom 4 rest else rest
  else t.

(** [t.replace(/```$/, '')] *)
Definition stripTrailingFence (t : string) : string :=
  if endsWith t "```" then substringTo (String.length t - 3) t else t.

(** [t.replace(/\bTrue\b/g, 'true').replace(/\bFalse\b/g, 'false')] *)
Definition normalizeBooleans (t : string) : string :=
  replaceWord "False" "false" (replaceWord "True" "true" t).

(** The last three statements of [extractJsonObject]: the text from the
    first opening brace to the last closing brace. *)
Definition sliceBraces (t : string) : Except string :=
  let start := indexOf "{" t in
  let end_ := lastIndexOf "}" t in
  if (start =? -1)%Z || (end_ =? -1)%Z || (end_ <=? start)%Z
  then Throw "No JSON object found in model output"
  else Ok (substring (Z.to_nat start) (Z.to_nat (end_ + 1)) t).

(** [extractJsonObject] *)
Definition extractJsonObject (text : string) : Except string :=
  let t := trim text in
  let t :=
    if startsWith t "```"
    then trim (stripTrailingFence (stripLeadingFence t)) else t in
  let t := normalizeBooleans t in
  sliceBraces t.

(* ===================================================================== *)
(** * 4. The form of a loaded document (pdf-lib, as the sources use it)   *)
(* ===================================================================== *)

(** A field object of [form.getFields()]: its class and the state the
    sources read or write.  [PDFOtherField] stands for the classes the
    sources do not test for (buttons, option lists, signatures). *)
Inductive PDFFieldObject :=
| PDFTextField (text : option string) (maxLen : option nat)
| PDFCheckBox (isChecked : bool)
| PDFRadioGroup (options : list string) (selected : option string)
| PDFDropdown (options : list string) (selected : list string)
| PDFOtherField.

(** [form.getFields()]: the fields in document order, each with [getName()]. *)
Abbreviation PDFForm := (list (string * PDFFieldObject)).

Definition quoted (s : string) : string :=
  String "034"%char (s +:+ String "034"%char EmptyString).

(** [form.getField(name)]: the first field of that name; throws otherwise. *)
Fixpoint getField (form : PDFForm) (fieldName : string) : Except PDFFieldObject :=
  match form with
  | [] => Throw ("PDFDocument has no form field with the name " +:+ quoted fieldName)
  | (n, field) :: rest =>
      if String.eqb n fieldName then Ok field else getField rest fieldName
  end.

(** The effect on the form of a method that changes the object returned by
    [getField fieldName]. *)
Fixpoint setField (form : PDFForm) (fieldName : string) (field' : PDFFieldObject)
  : PDFForm :=
  match form with
  | [] => []
  | (n, field) :: rest =>
      if String.eqb n fieldName then (n, field') :: rest
      else (n, field) :: setField rest fieldName field'
  end.

(** [field.setText(text)]: throws when a declared maximal length is
    exceeded; an empty text removes the value. *)
Definition setText (fieldName : string) (maxLen : option nat) (text : string)
  : Except PDFFieldObject :=
  match maxLen with
  | Some n =>
      if (n <? String.length text)%nat
      then Throw ("Attempted to set text with length=" +:+ pretty (String.length text) +:+
                  " for TextField with maxLength=" +:+ pretty n +:+
                  " and name=" +:+ fieldName)
      else Ok (PDFTextField (if String.eqb text "" then None else Some text) maxLen)
  | None => Ok (PDFTextField (if String.eqb text "" then None else Some text) maxLen)
  end.

(** [options.includes(value)] *)
Definition includes (options : list string) (value : string) : bool :=
  existsb (String.eqb value) options.

(** ** Extraction: the loop of [extractPDFFields] and [extractPDFFieldsWithLib] *)

Definition fieldTypeOf (field : PDFFieldObject) : string :=
  match field with
  | PDFTextField _ _ => "text"
  | PDFCheckBox _ => "checkbox"
  | PDFRadioGroup _ _ => "radio"
  | PDFDropdown _ _ => "dropdown"
  | PDFOtherField => "unknown"
  end.

(** [field.getMaxLength() || undefined] for a text field *)
Definition maxLengthOf (field : PDFFieldObject) : option nat :=
  match field with
  | PDFTextField _ (Some (S n)) => Some (S n)
  | _ => None
  end.

Definition describeField (entry : string * PDFFieldObject) : PDFField :=
  {| name := JsStr (fst entry);
     label := JsStr (fst entry);
     type := JsStr (fieldTypeOf (snd entry));
     maxLength := maxLengthOf (snd entry) |}.

Definition describeFields (form : PDFForm) : list PDFField := map describeField form.

(** ** Filling: the loops of [fillPDFFields] and [fillPDFFieldsWithLib] *)

(** A call of [console.log] or [console.warn]: the first argument and the
    values passed after it. *)
Inductive Console :=
| ConsoleLog (line : string) (args : list JsValue)
| ConsoleWarn (line : string) (args : list JsValue).

(** The test of the checkbox branch in [route.ts]. *)
Definition shouldCheck (value : string) : bool :=
  String.eqb (toLowerCase value) "true" ||
  String.eqb (toLowerCase value) "yes" ||
  String.eqb value "1" ||
  String.eqb (toLowerCase value) "on" ||
  String.eqb (toLowerCase value) "checked".

(** The test of the checkbox branch in [pdf-lib-processor.ts]. *)
Definition shouldCheckWithLib (value : string) : bool :=
  String.eqb (toLowerCase value) "true" ||
  String.eqb (toLowerCase value) "yes" ||
  String.eqb value "1" ||
  String.eqb (toLowerCase value) "on".

(** One turn of the loop of [fillPDFFields] ([route.ts]): the [try] block
    and its [catch], on the form and the console output so far. *)
Definition fillField (fieldName value : string) (st : PDFForm * list Console)
  : PDFForm * list Console :=
  let '(form, console) := st in
  let caught e :=
    (form, console ++
       [ConsoleWarn ("Could not fill field '" +:+ fieldName +:+ "':") [JsStr e]]) in
  match getField form fieldName with
  | Throw e => caught e
  | Ok (PDFTextField _ maxLen) =>
      match setText fieldName maxLen value with
      | Throw e => caught e
      | Ok field' =>
          (setField form fieldName field', console ++
             [ConsoleLog ("Set text field '" +:+ fieldName +:+ "' to: " +:+ value) []])
      end
  | Ok (PDFCheckBox _) =>
      if shouldCheck value
      then (setField form fieldName (PDFCheckBox true), console ++
              [ConsoleLog ("Checked checkbox '" +:+ fieldName +:+ "'") []])
      else (setField form fieldName (PDFCheckBox false), console ++
              [ConsoleLog ("Unchecked checkbox '" +:+ fieldName +:+ "'") []])
  | Ok (PDFRadioGroup options _) =>
      if includes options value
      then (setField form fieldName (PDFRadioGroup options (Some value)), console ++
              [ConsoleLog ("Selected radio '" +:+ fieldName +:+ "' option: " +:+ value) []])
      else (form, console ++
              [ConsoleWarn ("Radio field '" +:+ fieldName +:+ "' does not have option '" +:+
                            value +:+ "'. Available options:") [JsArr (JsStr <$> options)]])
  | Ok (PDFDropdown options _) =>
      if includes options value
      then (setField form fieldName (PDFDropdown options [value]), console ++
              [ConsoleLog ("Selected dropdown '" +:+ fieldName +:+ "' option: " +:+ value) []])
      else (form, console ++
              [ConsoleWarn ("Dropdown field '" +:+ fieldName +:+ "' does not have option '" +:+
                            value +:+ "'. Available options:") [JsArr (JsStr <$> options)]])
  | Ok PDFOtherField =>
      (form, console ++
         [ConsoleWarn ("Unknown field type for '" +:+ fieldName +:+ "', skipping") []])
  end.

(** The loop of [fillPDFFields], after its first [console.log]. *)
Definition fillFields (form : PDFForm) (fieldValues : gmap string string)
  : PDFForm * list Console :=
  map_fold fillField
    (form, [ConsoleLog "Filling PDF with values:" [JsObj (asValues fieldValues)]])
    fieldValues.

(** One turn of the loop of [fillPDFFieldsWithLib]. *)
Definition fillFieldWithLib (fieldName value : string) (st : PDFForm * list Console)
  : PDFForm * list Console :=
  let '(form, console) := st in
  let caught e :=
    (form, console ++
       [ConsoleWarn ("Could not fill field " +:+ fieldName +:+ ":") [JsStr e]]) in
  match getField form fieldName with
  | Throw e => caught e
  | Ok (PDFTextField _ maxLen) =>
      match setText fieldName maxLen value with
      | Throw e => caught e
      | Ok field' => (setField form fieldName field', console)
      end
  | Ok (PDFCheckBox _) =>
      if shouldCheckWithLib value
      then (setField form fieldName (PDFCheckBox true), console)
      else (setField form fieldName (PDFCheckBox false), console)
  | Ok (PDFRadioGroup options _) =>
      if includes options value
      then (setField form fieldName (PDFRadioGroup options (Some value)), console)
      else (form, console)
  | Ok (PDFDropdown options _) =>
      if includes options value
      then (setField form fieldName (PDFDropdown options [value]), console)
      else (form, console)
  | Ok PDFOtherField => (form, console)
  end.

(** The loop of [fillPDFFieldsWithLib]. *)
Definition fillFieldsWithLib (form : PDFForm) (fieldValues : gmap string string)
  : PDFForm * list Console :=
  map_fold fillFieldWithLib (form, []) fieldValues.

(* ===================================================================== *)
(** * 5. app/(chat)/api/fill-pdf/route.ts: the request handler            *)
(* ===================================================================== *)

(** [interface FillPDFRequest]; a missing [pdfUrl] or [userInfo] is the
    empty string (both are falsy). *)
Record FillPDFRequest := {
  pdfUrl : string;
  userInfo : string;
  formType : option string
}.

(** [interface FillPDFResponse] *)
Record FillPDFResponse := {
  success : bool;
  filledPdfUrl : option string;
  message : string;
  fields : option (gmap string string)
}.

(** [{ success: false, message }] *)
Definition failureBody (msg : string) : FillPDFResponse :=
  {| success := false; filledPdfUrl := None; message := msg; fields := None |}.

(** [Object.entries(v)]: the own enumerable properties of [v] once it is
    coerced to an object; [null] and [undefined] cannot be. *)
Definition Object_entries (v : JsValue) : Except (gmap string JsValue) :=
  match v with
  | JsUndefined | JsNull => Throw "Cannot convert undefined or null to object"
  | JsBool _ | JsNum _ => Ok ∅
  | JsStr s =>
      Ok (list_to_map (imap (fun i c => (pretty i, JsStr (String c EmptyString)))
                            (list_ascii_of_string s)))
  | JsArr l => Ok (list_to_map (imap (fun i e => (pretty i, e)) l))
  | JsObj m => Ok m
  end.

(** [timestamp.replace(/[:.]/g, '-')] *)
Fixpoint replaceColonsAndDots (s : string) : string :=
  match s with
  | EmptyString => EmptyString
  | String c s' =>
      String (if Ascii.eqb c ":" || Ascii.eqb c "." then "-"%char else c)
             (replaceColonsAndDots s')
  end.

Section Pipeline.

(** The collaborators of the handler: the bytes of a document, the HTTP
    client, pdf-parse, pdf-lib's reader and writer, the prompt builder, the
    model ([generateText], applied to the model's name and the prompt), the
    JSON decoder ([None] when [JSON.parse] throws), the blob store and the
    clock.  Console output of the handler itself is not kept. *)
Context {Bytes : Type}.

Record FetchResponse := {
  ok : bool;
  status : nat;
  statusText : string;
  arrayBuffer : Bytes
}.

Variable fetch : string -> Except FetchResponse.
Variable pdfParse : Bytes -> Except string.
Variable PDFDocument_load : Bytes -> Except PDFForm.
Variable PDFDocument_save : PDFForm -> Except Bytes.
Variable generateFillFieldsPrompt : string -> list PDFField -> string -> string.
Variable generateText : string -> string -> Except string.
Variable JSON_parse : string -> option JsValue.
Variable put : string -> Bytes -> Except string.
Variable toISOString : string.

(** [downloadPDFFromUrl] ([pdf-processor.ts]) *)
Definition downloadPDFFromUrl (url : string) : Except Bytes :=
  match
    (response ← fetch url;
     if negb (ok response)
     then Throw ("Failed to download PDF: " +:+ pretty (status response) +:+ " " +:+
                 statusText response)
     else Ok (arrayBuffer response))
  with
  | Ok buffer => Ok buffer
  | Throw e => Throw ("Error downloading PDF: " +:+ e)
  end.

(** [extractPDFText]: [data.text || ''], and [''] when pdf-parse throws. *)
Definition extractPDFText (pdfBuffer : Bytes) : string :=
  match pdfParse pdfBuffer with
  | Ok text => text
  | Throw _ => ""
  end.

(** [extractPDFFields] *)
Definition extractPDFFields (pdfBuffer : Bytes) : Except (list PDFField) :=
  match PDFDocument_load pdfBuffer with
  | Ok form => Ok (describeFields form)
  | Throw e => Throw ("Failed to extract PDF fields: " +:+ e)
  end.

(** [fillPDFFields], with what it wrote to the console. *)
Definition fillPDFFields (pdfBuffer : Bytes) (fieldValues : gmap string string)
  : Except Bytes * list Console :=
  match PDFDocument_load pdfBuffer with
  | Throw e => (Throw ("Failed to fill PDF fields: " +:+ e), [])
  | Ok form =>
      let '(form', console) := fillFields form fieldValues in
      match PDFDocument_save form' with
      | Ok filledPdfBytes => (Ok filledPdfBytes, console)
      | Throw e => (Throw ("Failed to fill PDF fields: " +:+ e), console)
      end
  end.

(** [fillPDFFieldsWithLib] ([pdf-lib-processor.ts]) *)
Definition fillPDFFieldsWithLib (pdfBuffer : Bytes) (fieldValues : gmap string string)
  : Except Bytes * list Console :=
  match PDFDocument_load pdfBuffer with
  | Throw e => (Throw ("Failed to fill PDF fields: " +:+ e), [])
  | Ok form =>
      let '(form', console) := fillFieldsWithLib form fieldValues in
      match PDFDocument_save form' with
      | Ok bytes => (Ok bytes, console)
      | Throw e => (Throw ("Failed to fill PDF fields: " +:+ e), console)
      end
  end.

(** [POST] from the parsing of the model's answer on (the part after
    [generateText]); a [Throw] is an exception that reaches the handler's
    outer [catch]. *)
Definition afterModel (pdfBuffer : Bytes) (pdfFields : list PDFField)
    (formType : option string) (aiResponseText : string)
  : Except (FillPDFResponse * nat) :=
  let cleanedResponse := cleanAIResponse aiResponseText in
  match JSON_parse cleanedResponse with
  | None => Ok (failureBody "Failed to parse AI response for field values", 500)
  | Some fieldValues =>
      entries ← Object_entries fieldValues;
      let sanitizedValues := sanitizeFieldValues entries pdfFields in
      filledPdfBuffer ← fst (fillPDFFields pdfBuffer sanitizedValues);
      let timestamp := replaceColonsAndDots toISOString in
      let filename :=
        "filled-form-" +:+
        match formType with
        | Some (String c t) => String c t
        | _ => "unknown"
        end +:+ "-" +:+ timestamp +:+ ".pdf" in
      url ← put filename filledPdfBuffer;
      Ok ({| success := true;
             filledPdfUrl := Some url;
             message := "PDF form filled successfully!";
             fields := Some sanitizedValues |}, 200)
  end.

(** [POST] from the validation of the extracted fields on (the part after
    [Promise.all]). *)
Definition afterExtraction (pdfBuffer : Bytes) (pdfText : string)
    (pdfFields : list PDFField) (request : FillPDFRequest)
  : Except (FillPDFResponse * nat) :=
  if negb (validatePDFFields pdfFields)
  then Ok (failureBody "Invalid PDF fields extracted", 400)
  else
    let prompt := generateFillFieldsPrompt pdfText pdfFields (userInfo request) in
    aiResponseText ← generateText "gpt-4o-mini" prompt;
    afterModel pdfBuffer pdfFields (formType request) aiResponseText.

(** [POST]: the body of a response and its HTTP status.  [authenticated]
    is [session && session.user]; [body] is [await request.json()]. *)
Definition POST (authenticated : bool) (body : Except FillPDFRequest)
  : FillPDFResponse * nat :=
  match
    (if negb authenticated then Ok (failureBody "Unauthorized", 401)
     else
       request ← body;
       if String.eqb (pdfUrl request) "" || String.eqb (userInfo request) ""
       then Ok (failureBody "Missing required fields: pdfUrl and userInfo", 400)
       else
         pdfBuffer ← downloadPDFFromUrl (pdfUrl request);
         let pdfText := extractPDFText pdfBuffer in
         pdfFields ← extractPDFFields pdfBuffer;
         afterExtraction pdfBuffer pdfText pdfFields request)
  with
  | Ok response => response
  | Throw e => (failureBody e, 500)
  end.

(** [execute] of the [fillPdfForm] tool: the same steps, every failure
    thrown and turned into a result by the one [catch]. *)
Definition fillPdfForm_execute (params : FillPDFRequest) : FillPDFResponse :=
  match
    (if String.eqb (pdfUrl params) ""
     then Throw "pdfUrl parameter is required but was not provided"
     else if String.eqb (userInfo params) ""
     then Throw "userInfo parameter is required but was not provided"
     else
       pdfBuffer ← downloadPDFFromUrl (pdfUrl params);
       let pdfText := extractPDFText pdfBuffer in
       pdfFields ← extractPDFFields pdfBuffer;
       if negb (validatePDFFields pdfFields)
       then Throw "Invalid PDF fields extracted"
       else
         let prompt := generateFillFieldsPrompt pdfText pdfFields (userInfo params) in
         aiResponseText ← generateText "chat-model" prompt;
         let cleanedResponse := cleanAIResponse aiResponseText in
         match JSON_parse cleanedResponse with
         | None => Throw "Failed to parse AI response for field values"
         | Some fieldValues =>
             entries ← Object_entries fieldValues;
             let sanitizedValues := sanitizeFieldValues entries pdfFields in
             filledPdfBuffer ← fst (fillPDFFields pdfBuffer sanitizedValues);
             let timestamp := replaceColonsAndDots toISOString in
             let filename :=
               "filled-form-" +:+
               match formType params with
               | Some (String c t) => String c t
               | _ => "unknown"
               end +:+ "-" +:+ timestamp +:+ ".pdf" in
             url ← put filename filledPdfBuffer;
             Ok {| success := true;
                   filledPdfUrl := Some url;
                   message := "Form filled successfully! The filled PDF is available at: "
                              +:+ url;
                   fields := Some sanitizedValues |}
         end)
  with
  | Ok result => result
  | Throw e => failureBody ("Error filling PDF form: " +:+ e)
  end.

End Pipeline.

(* ===================================================================== *)
(** * 6. Vocabulary of the statements                                     *)
(* ===================================================================== *)

(** What one entry of the raw record contributes to the sanitized one. *)
Definition keptValue (fields : list PDFField) (fieldName : string) (value : JsValue)
  : option string :=
  if String.eqb fieldName "__proto__" then None
  else match findField fields fieldName with
       | Some field => if truthy value then Some (sanitizedValueOf field value) else None
       | None => None
       end.

(** [{f.name for f in fields}]: the names that are strings. *)
Definition fieldNames (fields : list PDFField) : gset string :=
  list_to_set (omap (fun f => match name f with JsStr s => Some s | _ => None end) fields).

(** A string that is empty or begins with a character [trim] keeps. *)
Definition cleanStart (s : string) : Prop :=
  match s with
  | EmptyString => True
  | String c _ => isWhiteSpace c = false
  end.

(** The state of one field after the turn of [fillPDFFields]'s loop that
    handles it. *)
Definition fieldAfter (fieldName value : string) (field : PDFFieldObject) : PDFFieldObject :=
  match field with
  | PDFTextField _ maxLen =>
      match setText fieldName maxLen value with
      | Ok field' => field'
      | Throw _ => field
      end
  | PDFCheckBox _ => PDFCheckBox (shouldCheck value)
  | PDFRadioGroup options _ =>
      if includes options value then PDFRadioGroup options (Some value) else field
  | PDFDropdown options _ =>
      if includes options value then PDFDropdown options [value] else field
  | PDFOtherField => field
  end.

(** The five kinds of the data model. *)
Definition validKind (kind : string) : Prop :=
  kind ∈ ["text"; "checkbox"; "radio"; "dropdown"; "unknown"].

(** The truth table of the checkbox rule. *)
Definition checkedWords : list string := ["true"; "yes"; "1"; "on"; "checked"].

(** The schema and the raw model output of the specification's scenario. *)
Definition scenarioFields : list PDFField :=
  [ {| name := JsStr "full_name"; label := JsStr "full_name";
       type := JsStr "text"; maxLength := Some 20 |};
    {| name := JsStr "is_llc"; label := JsStr "is_llc";
       type := JsStr "checkbox"; maxLength := None |} ].

Definition scenarioRaw : gmap string JsValue :=
  <["full_name" := JsStr "Jonathan Alexander Smithsonian"]>
    (<["is_llc" := JsStr "yes"]> (<["ghost_field" := JsStr "x"]> ∅)).

(** [c] occurs in [s]. *)
Fixpoint hasChar (c : ascii) (s : string) : bool :=
  match s with
  | EmptyString => false
  | String x s' => Ascii.eqb x c || hasChar c s'
  end.

(** Every character of [w] is a word character. *)
Fixpoint wordOnly (w : string) : bool :=
  match w with
  | EmptyString => true
  | String x w' => isWordChar x && wordOnly w'
  end.

(** The text [extractJsonObject] hands to the normalization of booleans. *)
Definition repaired (text : string) : string :=
  let t := trim text in
  if startsWith t "```" then trim (stripTrailingFence (stripLeadingFence t)) else t.

(** What [repaired] does before the first brace and after the last. *)
Definition repairPrefix (X : string) : string :=
  let t := trimStart X in
  if startsWith t "```" then trimStart (stripLeadingFence t) else t.

(** [fenced]: the trimmed text began with a fence. *)
Definition repairSuffix (fenced : bool) (Y : string) : string :=
  if fenced then trimEnd (stripTrailingFence (trimEnd Y)) else trimEnd Y.

(** [normalizeBooleans] on the text after the character [prev]. *)
Definition normalizeAfter (prev : ascii) (s : string) : string :=
  replaceWordFrom "False" "false" 0 (Some prev)
    (replaceWordFrom "True" "true" 0 (Some prev) s).

(** The two characters [sliceBraces] looks for. *)
Definition isBrace (c : ascii) : Prop := c = "{"%char \/ c = "}"%char.

(** A sanitized value that a second pass keeps as it is: not empty, and
    not ending in white space. *)
Definition settled (v : string) : Prop := v ≠ "" /\ trimEnd v = v.

(** The result of a function applied to what did not throw. *)
Definition mapE {A B} (f : A -> B) (m : Except A) : Except B :=
  match m with
  | Ok a => Ok (f a)
  | Throw e => Throw e
  end.


(** The line one turn of [fillPDFFields]'s loop writes, given what
    [form.getField] returned. *)
Definition turnEntry (fieldName value : string) (found : Except PDFFieldObject) : Console :=
  let caught e := ConsoleWarn ("Could not fill field '" +:+ fieldName +:+ "':") [JsStr e] in
  match found with
  | Throw e => caught e
  | Ok (PDFTextField _ maxLen) =>
      match setText fieldName maxLen value with
      | Throw e => caught e
      | Ok _ => ConsoleLog ("Set text field '" +:+ fieldName +:+ "' to: " +:+ value) []
      end
  | Ok (PDFCheckBox _) =>
      if shouldCheck value
      then ConsoleLog ("Checked checkbox '" +:+ fieldName +:+ "'") []
      else ConsoleLog ("Unchecked checkbox '" +:+ fieldName +:+ "'") []
  | Ok (PDFRadioGroup options _) =>
      if includes options value
      then ConsoleLog ("Selected radio '" +:+ fieldName +:+ "' option: " +:+ value) []
      else ConsoleWarn ("Radio field '" +:+ fieldName +:+ "' does not have option '" +:+
                        value +:+ "'. Available options:") [JsArr (JsStr <$> options)]
  | Ok (PDFDropdown options _) =>
      if includes options value
      then ConsoleLog ("Selected dropdown '" +:+ fieldName +:+ "' option: " +:+ value) []
      else ConsoleWarn ("Dropdown field '" +:+ fieldName +:+ "' does not have option '" +:+
                        value +:+ "'. Available options:") [JsArr (JsStr <$> options)]
  | Ok PDFOtherField =>
      ConsoleWarn ("Unknown field type for '" +:+ fieldName +:+ "', skipping") []
  end.

(** The falsy values a decoded record can hold: the empty string, [false],
    [null] and [0]. *)
Definition falsyValues : list JsValue := [JsStr ""; JsBool false; JsNull; JsNum "0"].

(** A descriptor as the specification's validation step wants it. *)
Definition wellFormedDescriptor (f : PDFField) : Prop :=
  (exists n, name f = JsStr n /\ n ≠ "") /\ (exists k, type f = JsStr k /\ validKind k).

(** What [validatePDFFields] tests of a descriptor. *)
Definition stringTyped (f : PDFField) : Prop :=
  (exists n, name f = JsStr n) /\ (exists k, type f = JsStr k).

(** A line feed. *)
Definition newline : string := String "010"%char EmptyString.

(** The answer of the specification's parser scenario: a fenced block with
    a Python boolean, between two lines of commentary. *)
Definition pythonBody : string := "{" +:+ quoted "is_llc" +:+ ": True}".

(** The same object as clean JSON. *)
Definition cleanBody : string := "{" +:+ quoted "is_llc" +:+ ": true}".

Definition fencedAnswer : string :=
  "```json" +:+ newline +:+ pythonBody +:+ newline +:+ "```".

Definition chattyAnswer : string :=
  "Here are the values:" +:+ newline +:+ fencedAnswer +:+ newline +:+
  "Let me know if anything is missing.".

(** A string of white space only. *)
Fixpoint blank (s : string) : bool :=
  match s with
  | EmptyString => true
  | String c s' => isWhiteSpace c && blank s'
  end.

(** The state of one field after the turn of [fillPDFFieldsWithLib]'s loop
    that handles it. *)
Definition fieldAfterWithLib (fieldName value : string) (field : PDFFieldObject)
  : PDFFieldObject :=
  match field with
  | PDFCheckBox _ => PDFCheckBox (shouldCheckWithLib value)
  | _ => fieldAfter fieldName value field
  end.

(** A form filled field by field, in document order: the first field of
    each name is changed by the entry under its name, every other field is
    kept. *)
Fixpoint fillAll (after : string -> string -> PDFFieldObject -> PDFFieldObject)
    (form : PDFForm) (values : gmap string string) : PDFForm :=
  match form with
  | [] => []
  | (n, field) :: rest =>
      (n, match values !! n with
          | Some v => after n v field
          | None => field
          end) :: fillAll after rest (delete n values)
  end.

(** The character before the rest of a text, once [u] has been read after
    the character [prev]. *)
Fixpoint prevAfter (prev : option ascii) (u : string) : option ascii :=
  match u with
  | EmptyString => prev
  | String c u' => prevAfter (Some c) u'
  end.

(** [/\bW\b/] matches nowhere in [s], the text after the character [prev]. *)
Fixpoint noMatch (w : string) (prev : option ascii) (s : string) : bool :=
  match s with
  | EmptyString => true
  | String c s' => negb (matchesWordAt w prev s) && noMatch w (Some c) s'
  end.

(** [out] is [s] with some occurrences of the character [a] replaced by
    [a']. *)
Fixpoint replacedAt (a a' : ascii) (s out : string) : bool :=
  match s, out with
  | EmptyString, EmptyString => true
  | String x s', String y out' =>
      (Ascii.eqb x y || (Ascii.eqb x a && Ascii.eqb y a')) && replacedAt a a' s' out'
  | _, _ => false
  end.

(* ===================================================================== *)
(** * 6a. app/(chat)/api/chat/route.ts: preprocessMessage                 *)
(* ===================================================================== *)

(** A part of a chat message, as [preprocessMessage] reads it: a text
    part, a file part (with its media type, its file name if it has one,
    and its URL), or a part of another type, which is only passed on. *)
Inductive MessagePart :=
| TextPart (text : string)
| FilePart (mediaType : string) (filename : option string) (url : string)
| OtherPart (content : JsValue).

(** A message: its role and its parts (the other properties are copied by
    the spread and not looked at). *)
Record ChatMessage := {
  role : string;
  parts : list MessagePart
}.

(** A file name inside a template literal: a missing one prints as
    undefined. *)
Definition printedName (filename : option string) : string :=
  default "undefined" filename.

(** The text that stands for an uploaded PDF. *)
Definition pdfNotice (filename : option string) (url : string) : string :=
  "[PDF Document: " +:+ printedName filename +:+ "]" +:+ newline +:+ newline +:+
  "I have uploaded a PDF form titled " +:+ quoted (printedName filename) +:+ "." +:+
  newline +:+ newline +:+
  "PDF URL for fillPdfForm tool: " +:+ url +:+ newline +:+ newline +:+
  "Please help me fill out this form by asking me for the required information, " +:+
  "then use the fillPdfForm tool with the PDF URL above to complete it.".

(** One turn of the loop over [message.parts].  Nothing in the [try] block
    throws, so its [catch] is not modelled. *)
Definition preprocessPart (part : MessagePart) : MessagePart :=
  match part with
  | FilePart mediaType filename url =>
      if String.eqb mediaType "application/pdf"
      then TextPart (pdfNotice filename url)
      else part
  | _ => part
  end.

(** [preprocessMessage] *)
Definition preprocessMessage (message : ChatMessage) : ChatMessage :=
  {| role := role message; parts := map preprocessPart (parts message) |}.

(** The messages read from the database, as [POST] prepares them: the
    user's messages are preprocessed, the others are kept. *)
Definition preprocessHistory (messages : list ChatMessage) : list ChatMessage :=
  map (fun msg => if String.eqb (role msg) "user" then preprocessMessage msg else msg)
      messages.

(** A file part that holds a PDF. *)
Definition isPdfPart (part : MessagePart) : bool :=
  match part with
  | FilePart mediaType _ _ => String.eqb mediaType "application/pdf"
  | _ => false
  end.

(* ===================================================================== *)
(** * 6b. lib/ai/tools/extract-pdf-form-spec.ts: the tool's [execute]     *)
(* ===================================================================== *)

(** [v.key] for a decoded JSON value [v] that is neither [null] nor
    [undefined], and a key that [Object.prototype] does not define: an own
    property of an object, the [length] of an array or a string, and
    [undefined] otherwise. *)
Definition getProperty (v : JsValue) (key : string) : JsValue :=
  match v with
  | JsObj m => default JsUndefined (m !! key)
  | JsArr l => if String.eqb key "length" then numberOfNat (length l) else JsUndefined
  | JsStr s => if String.eqb key "length" then numberOfNat (String.length s)
               else JsUndefined
  | _ => JsUndefined
  end.

(** [v?.key] *)
Definition getOptional (v : JsValue) (key : string) : JsValue :=
  match v with
  | JsUndefined | JsNull => JsUndefined
  | _ => getProperty v key
  end.

(** [l.join(sep)] for an array of values: [null] and [undefined] print as
    nothing. *)
Definition joinValues (sep : string) (l : list JsValue) : string :=
  join sep (map (fun e => match e with
                          | JsUndefined | JsNull => ""
                          | _ => toString e
                          end) l).

(** [questionSpec?.questions?.length], as a condition *)
Definition hasQuestions (questionSpec : JsValue) : bool :=
  truthy (getOptional (getOptional questionSpec "questions") "length").

Module ExtractPdfFormSpec.

(** What [execute] returns. *)
Record Result := {
  success : bool;
  message : string;
  questionSpec : option JsValue;
  questionsText : option string
}.

End ExtractPdfFormSpec.

Section QuestionSpec.

(** The collaborators of the tool, as for the request handler; here
    [JSON_parse] throws with the message of the engine's [SyntaxError], and
    the document is loaded with [ignoreEncryption].  [typeError] gives the
    message of the engine's [TypeError] for the expression that failed.
    [bullet] and [emDash] are the two characters of the template outside
    the Latin-1 range (U+2022 and U+2014). *)
Context {Bytes : Type}.
Variable fetch : string -> Except (@FetchResponse Bytes).
Variable pdfParse : Bytes -> Except string.
Variable PDFDocument_load : Bytes -> Except PDFForm.
Variable generateQuestionSpecPrompt : string -> list PDFField -> string -> string.
Variable generateText : string -> string -> Except string.
Variable JSON_parse : string -> Except JsValue.
Variable typeError : string -> string.
Variables (bullet emDash : string).

(** The callback of [filter]: [(q.question || '').trim().length > 0] *)
Definition keepsQuestion (q : JsValue) : Except bool :=
  match q with
  | JsUndefined | JsNull => Throw (typeError "q.question")
  | _ =>
      let question := getProperty q "question" in
      match (if truthy question then question else JsStr "") with
      | JsStr s => Ok (negb (String.eqb (trim s) ""))
      | _ => Throw (typeError "(q.question || '').trim")
      end
  end.

(** [questions.filter(...)] on the elements of an array *)
Fixpoint filterQuestions (questions : list JsValue) : Except (list JsValue) :=
  match questions with
  | [] => Ok []
  | q :: rest =>
      keep ← keepsQuestion q;
      kept ← filterQuestions rest;
      Ok (if keep : bool then q :: kept else kept)
  end.

(** [opts] of the callback of [map] *)
Definition optionsNote (q : JsValue) : Except string :=
  let options := getProperty q "options" in
  if truthy options && truthy (getProperty options "length")
  then match options with
       | JsArr l => Ok (" (Options: " +:+ joinValues ", " l +:+ ")")
       | _ => Throw (typeError "q.options.join")
       end
  else Ok "".

(** [pre] of the callback of [map] *)
Definition prefillNote (q : JsValue) : string :=
  let prefill := getProperty q "prefill" in
  match prefill with
  | JsUndefined | JsNull => ""
  | _ =>
      if String.eqb (toString prefill) "" then ""
      else " [We have: " +:+ toString prefill +:+
           (if truthy (getProperty q "needsConfirmation")
            then " " +:+ emDash +:+ " please confirm" else "") +:+ "]"
  end.

(** The callback of [map], on an element that passed the filter *)
Definition questionLine (q : JsValue) : Except string :=
  match getProperty q "question" with
  | JsStr s =>
      opts ← optionsNote q;
      Ok (bullet +:+ " " +:+ trim s +:+ opts +:+ prefillNote q)
  | _ => Throw (typeError "q.question.trim")
  end.

(** [kept.map(...)] *)
Fixpoint questionLines (kept : list JsValue) : Except (list string) :=
  match kept with
  | [] => Ok []
  | q :: rest =>
      line ← questionLine q;
      lines ← questionLines rest;
      Ok (line :: lines)
  end.

(** [questionSpec.questions.filter(...).map(...).join('\n')] *)
Definition renderQuestions (questions : JsValue) : Except string :=
  match questions with
  | JsArr l =>
      kept ← filterQuestions l;
      lines ← questionLines kept;
      Ok (join newline lines)
  | _ => Throw (typeError "questionSpec.questions.filter")
  end.

(** [execute] from the decoding of the model's answer on. *)
Definition afterAnswer (aiResponseText : string) : Except ExtractPdfFormSpec.Result :=
  jsonText ← extractJsonObject aiResponseText;
  questionSpec ← JSON_parse jsonText;
  if negb (hasQuestions questionSpec)
  then Throw "Model returned no questions"
  else
    questionsText ← renderQuestions (getProperty questionSpec "questions");
    Ok {| ExtractPdfFormSpec.success := true;
          ExtractPdfFormSpec.message := "Question spec generated.";
          ExtractPdfFormSpec.questionSpec := Some questionSpec;
          ExtractPdfFormSpec.questionsText := Some questionsText |}.

(** [execute] of the [extractPdfFormSpec] tool; a missing [userInfo] is
    [None] and defaults to the empty string. *)
Definition extractPdfFormSpec_execute (pdfUrl : string) (userInfo : option string)
  : ExtractPdfFormSpec.Result :=
  match
    (if String.eqb pdfUrl ""
     then Throw "pdfUrl parameter is required but was not provided"
     else
       pdfBuffer ← downloadPDFFromUrl fetch pdfUrl;
       let pdfText := extractPDFText pdfParse pdfBuffer in
       pdfFields ← extractPDFFields PDFDocument_load pdfBuffer;
       if negb (validatePDFFields pdfFields)
       then Throw "Invalid or empty PDF fields extracted"
       else
         let prompt := generateQuestionSpecPrompt pdfText pdfFields (default "" userInfo) in
         aiResponseText ← generateText "chat-model" prompt;
         afterAnswer aiResponseText)
  with
  | Ok result => result
  | Throw e =>
      {| ExtractPdfFormSpec.success := false;
         ExtractPdfFormSpec.message := "Error generating question spec: " +:+ e;
         ExtractPdfFormSpec.questionSpec := None;
         ExtractPdfFormSpec.questionsText := None |}
  end.

End QuestionSpec.

(** A question without text: an object whose [question] is missing, or a
    string of white space only. *)
Definition blankQuestion (q : JsValue) : Prop :=
  exists m, q = JsObj m /\
            (m !! "question" = None \/ exists s, m !! "question" = Some (JsStr s) /\ trim s = "").

#[local] Arguments String.append : simpl nomatch.

(* ===================================================================== *)
(** * 7. Strings: lemmas                                                  *)
(* ===================================================================== *)

(** The primitives on small inputs. *)

Example trim_both_ends : trim "  a b  " = "a b".
Proof. reflexivity. Qed.

Example toString_of_array :
  toString (JsArr [JsNum "1"; JsNull; JsArr [JsNum "-2"; JsBool true]; JsStr "x"])
  = "1,,-2,true,x".
Proof. reflexivity. Qed.

Example indexOf_brace :
  indexOf "{" "ab{c}d}" = 2%Z /\ lastIndexOf "}" "ab{c}d}x" = 6%Z /\
  indexOf "{" "abc" = (-1)%Z /\ lastIndexOf "}" "" = (-1)%Z.
Proof. repeat split. Qed.

Example normalizeBooleans_whole_words_only :
  normalizeBooleans "True,False;Truest xTrue True_ False-False"
  = "true,false;Truest xTrue True_ false-false".
Proof. reflexivity. Qed.

Example cleanAIResponse_strips_tagged_fence :
  cleanAIResponse ("  ```json" +:+ newline +:+ "{}" +:+ newline +:+ "```  ") = "{}" /\
  cleanAIResponse ("```" +:+ newline +:+ "{}" +:+ newline +:+ "```") = "```" +:+ newline +:+ "{}".
Proof. split; reflexivity. Qed.

Example extractJsonObject_strips_any_fence :
  extractJsonObject ("```JSON" +:+ newline +:+ "{True}" +:+ newline +:+ "```") = Ok "{true}" /\
  extractJsonObject ("```" +:+ newline +:+ "{}" +:+ newline +:+ "```") = Ok "{}" /\
  extractJsonObject "} {" = Throw "No JSON object found in model output".
Proof. repeat split. Qed.

(** A length printed is "0" for 0 only, and never "NaN". *)
Lemma pretty_N_go_not_NaN x s : s ≠ "NaN" -> pretty_N_go x s ≠ "NaN".
Proof.
  revert s. induction (N.lt_wf_0 x) as [x _ IH]; intros s Hs.
  destruct (decide (x = 0)%N) as [->|Hx]; [by rewrite pretty_N_go_0|].
  rewrite pretty_N_go_step by lia. apply IH; [apply N.div_lt; lia|].
  unfold pretty_N_char. intros H. by repeat case_match.
Qed.

Lemma truthy_numberOfNat n : truthy (numberOfNat n) = negb (n =? 0).
Proof.
  destruct n as [|n]; [reflexivity|]. unfold numberOfNat, truthy. simpl.
  assert (H0 : pretty (S n) ≠ "0").
  { change "0" with (pretty 0). intros H. by apply (inj pretty) in H. }
  assert (HN : pretty (S n) ≠ "NaN").
  { unfold pretty, pretty_nat, pretty, pretty_N.
    destruct (decide (N.of_nat (S n) = 0%N)); [done|].
    by apply pretty_N_go_not_NaN. }
  apply String.eqb_neq in H0, HN. by rewrite H0, HN.
Qed.

Lemma eqb_empty_false c s : String.eqb (String c s) "" = false.
Proof. reflexivity. Qed.

Lemma trimStart_cleanStart s : cleanStart (trimStart s).
Proof.
  induction s as [|c s IH]; simpl; [exact I|].
  destruct (isWhiteSpace c) eqn:Hc; [exact IH | simpl; exact Hc].
Qed.

Lemma trimStart_id s : cleanStart s -> trimStart s = s.
Proof. destruct s as [|c s]; simpl; [reflexivity|]. intros ->. reflexivity. Qed.

Lemma trimEnd_cleanStart s : cleanStart s -> cleanStart (trimEnd s).
Proof.
  destruct s as [|c s]; simpl; [auto|]. intros Hc.
  destruct (trimEnd s); simpl; [rewrite Hc; simpl|]; exact Hc.
Qed.

Lemma trim_cleanStart s : cleanStart (trim s).
Proof. apply trimEnd_cleanStart, trimStart_cleanStart. Qed.

Lemma substringTo_cleanStart n s : cleanStart s -> cleanStart (substringTo n s).
Proof. destruct n, s; simpl; auto. Qed.

Lemma substringTo_length n s : String.length (substringTo n s) <= n.
Proof.
  revert s; induction n as [|n IH]; intros [|c s]; simpl; try lia.
  specialize (IH s). lia.
Qed.

Lemma substringTo_all n s : String.length s <= n -> substringTo n s = s.
Proof.
  revert s; induction n as [|n IH]; intros [|c s]; simpl; intros H;
    try reflexivity; try lia.
  f_equal. apply IH. lia.
Qed.

Lemma trimEnd_length s : String.length (trimEnd s) <= String.length s.
Proof.
  induction s as [|c s IH]; simpl; [lia|].
  destruct (trimEnd s); simpl in *; [destruct (isWhiteSpace c); simpl; lia | lia].
Qed.

Lemma trimStart_length s : String.length (trimStart s) <= String.length s.
Proof.
  induction s as [|c s IH]; simpl; [lia|].
  destruct (isWhiteSpace c); simpl; lia.
Qed.

Lemma trim_length s : String.length (trim s) <= String.length s.
Proof.
  unfold trim. pose proof (trimEnd_length (trimStart s)).
  pose proof (trimStart_length s). lia.
Qed.

(** ** Concatenation, prefixes and suffixes *)

Lemma app_assoc (a b c : string) : (a +:+ b) +:+ c = a +:+ (b +:+ c).
Proof. induction a as [|x a IH]; simpl; [done|]. by rewrite IH. Qed.

Lemma app_empty_r (a : string) : a +:+ "" = a.
Proof. induction a as [|x a IH]; simpl; [done|]. by rewrite IH. Qed.

Lemma length_app (a b : string) :
  String.length (a +:+ b) = String.length a + String.length b.
Proof. induction a as [|x a IH]; simpl; [done|]. by rewrite IH. Qed.

Lemma hasChar_app c a b : hasChar c (a +:+ b) = hasChar c a || hasChar c b.
Proof. induction a as [|x a IH]; simpl; [done|]. by rewrite IH, orb_assoc. Qed.

Lemma prefix_length p s : String.prefix p s = true -> String.length p <= String.length s.
Proof.
  revert s; induction p as [|a p IH]; intros [|x s]; simpl; try lia; try discriminate.
  destruct (ascii_dec a x); [|discriminate]. intros H. specialize (IH s H). lia.
Qed.

(** A prefix that does not contain [c] lies before the first [c]. *)
Lemma prefix_app_nochar c p X R :
  hasChar c p = false ->
  String.prefix p (X +:+ String c R) = String.prefix p X.
Proof.
  revert X; induction p as [|a p IH]; intros X Hp; [by destruct X|].
  simpl in Hp. apply orb_false_iff in Hp as [Hac Hp].
  destruct X as [|x X]; simpl.
  - destruct (ascii_dec a c) as [->|]; [|done]. by rewrite Ascii.eqb_refl in Hac.
  - destruct (ascii_dec a x); [by apply IH|done].
Qed.

Lemma substringFrom_app_le n (P Q : string) :
  n <= String.length P -> substringFrom n (P +:+ Q) = substringFrom n P +:+ Q.
Proof.
  revert P; induction n as [|n IH]; intros P H; [done|].
  destruct P as [|x P]; simpl in *; [lia|]. apply IH. lia.
Qed.

Lemma substringFrom_app_ge n (P Q : string) :
  String.length P <= n -> substringFrom n (P +:+ Q) = substringFrom (n - String.length P) Q.
Proof.
  revert n; induction P as [|x P IH]; intros n H; simpl.
  - by rewrite Nat.sub_0_r.
  - destruct n as [|n]; simpl in *; [lia|]. apply IH. lia.
Qed.

Lemma substringTo_app_le n (P Q : string) :
  n <= String.length P -> substringTo n (P +:+ Q) = substringTo n P.
Proof.
  revert P; induction n as [|n IH]; intros P H; [done|].
  destruct P as [|x P]; simpl in *; [lia|]. f_equal. apply IH. lia.
Qed.

Lemma substringTo_app_ge n (P Q : string) :
  String.length P <= n -> substringTo n (P +:+ Q) = P +:+ substringTo (n - String.length P) Q.
Proof.
  revert n; induction P as [|x P IH]; intros n H; simpl.
  - by rewrite Nat.sub_0_r.
  - destruct n as [|n]; simpl in *; [lia|]. f_equal. apply IH. lia.
Qed.

Lemma substringFrom_length n s :
  String.length (substringFrom n s) = String.length s - n.
Proof.
  revert s; induction n as [|n IH]; intros s; simpl; [lia|].
  destruct s as [|x s]; simpl; [done|]. apply IH.
Qed.

Lemma substringFrom_all n s : String.length s <= n -> substringFrom n s = "".
Proof.
  revert s; induction n as [|n IH]; intros [|x s]; simpl; intros H; try done; try lia.
  apply IH. lia.
Qed.

Lemma substringTo_length_le n s :
  n <= String.length s -> String.length (substringTo n s) = n.
Proof.
  revert s; induction n as [|n IH]; intros [|x s]; simpl; intros H; try done; try lia.
  f_equal. apply IH. lia.
Qed.

(** ** Characters kept out *)

Lemma hasChar_substringFrom c n s : hasChar c s = false -> hasChar c (substringFrom n s) = false.
Proof.
  revert s; induction n as [|n IH]; intros [|x s]; simpl; try done.
  intros [_ H]%orb_false_iff. by apply IH.
Qed.

Lemma hasChar_substringTo c n s : hasChar c s = false -> hasChar c (substringTo n s) = false.
Proof.
  revert s; induction n as [|n IH]; intros [|x s]; simpl; try done.
  intros [-> H]%orb_false_iff. by apply IH.
Qed.

Lemma hasChar_trimStart c s : hasChar c s = false -> hasChar c (trimStart s) = false.
Proof.
  induction s as [|x s IH]; simpl; [done|].
  intros [Hx H]%orb_false_iff. destruct (isWhiteSpace x); [by apply IH|].
  simpl. by rewrite Hx, H.
Qed.

Lemma hasChar_trimEnd c s : hasChar c s = false -> hasChar c (trimEnd s) = false.
Proof.
  induction s as [|x s IH]; simpl; [done|].
  intros [Hx H]%orb_false_iff. specialize (IH H).
  destruct (trimEnd s); simpl in *.
  - destruct (isWhiteSpace x); simpl; [done|]. by rewrite Hx.
  - by rewrite Hx, IH.
Qed.

(** ** [trim] is local to the two ends *)

Lemma trimStart_app c X R :
  isWhiteSpace c = false -> trimStart (X +:+ String c R) = trimStart X +:+ String c R.
Proof.
  intros Hc. induction X as [|x X IH]; simpl; [by rewrite Hc|].
  destruct (isWhiteSpace x); [exact IH|done].
Qed.

Lemma trimEnd_cons_nonws c Y :
  isWhiteSpace c = false -> trimEnd (String c Y) = String c (trimEnd Y).
Proof. intros Hc. simpl. destruct (trimEnd Y); [by rewrite Hc|done]. Qed.

Lemma trimEnd_app c P Y :
  isWhiteSpace c = false -> trimEnd (P +:+ String c Y) = P +:+ String c (trimEnd Y).
Proof.
  intros Hc. induction P as [|x P IH]; [by apply trimEnd_cons_nonws|].
  change (String x P +:+ String c Y) with (String x (P +:+ String c Y)).
  cbn [trimEnd]. rewrite IH. by destruct P.
Qed.

(** ** The fence patterns are local to the two ends *)

Lemma startsWith_app c p X R :
  hasChar c p = false -> startsWith (X +:+ String c R) p = startsWith X p.
Proof. apply prefix_app_nochar. Qed.

Lemma endsWith_app c p P Y :
  hasChar c p = false -> endsWith (P +:+ String c Y) p = endsWith Y p.
Proof.
  intros Hp. unfold endsWith. rewrite length_app. simpl String.length.
  destruct (Nat.leb_spec (String.length p) (String.length Y)) as [Hle|Hgt].
  - replace (String.length p <=? String.length P + S (String.length Y)) with true
      by (symmetry; apply Nat.leb_le; lia).
    simpl. rewrite substringFrom_app_ge by lia.
    replace (String.length P + S (String.length Y) - String.length p - String.length P)
      with (S (String.length Y - String.length p)) by lia.
    done.
  - simpl. apply andb_false_iff.
    destruct (Nat.leb_spec (String.length p) (String.length P + S (String.length Y)))
      as [Hle|Hgt']; [right|by left].
    apply String.eqb_neq. intros Heq.
    rewrite substringFrom_app_le in Heq by lia.
    rewrite <- Heq, hasChar_app in Hp. simpl in Hp.
    rewrite Ascii.eqb_refl in Hp. simpl in Hp. by rewrite orb_true_r in Hp.
Qed.

Lemma lowerChar_brace c : c = "{"%char \/ c = "}"%char -> lowerChar c = c.
Proof. intros [->| ->]; reflexivity. Qed.

Lemma toLowerCase_length s : String.length (toLowerCase s) = String.length s.
Proof. induction s as [|x s IH]; simpl; [done|]. by rewrite IH. Qed.

Lemma hasChar_toLowerCase_brace c s :
  c = "{"%char \/ c = "}"%char ->
  hasChar c (toLowerCase s) = hasChar c s.
Proof.
  intros Hc. induction s as [|x s IH]; simpl; [done|]. rewrite IH. f_equal.
  destruct Hc as [->| ->];
    destruct x as [[] [] [] [] [] [] [] []]; reflexivity.
Qed.

(** The optional tag of the leading fence: four characters that spell
    [json] in some letter case. *)
Lemma jsonTag_app c X R :
  c = "{"%char \/ c = "}"%char ->
  String.eqb (toLowerCase (substringTo 4 (X +:+ String c R))) "json" =
  String.eqb (toLowerCase (substringTo 4 X)) "json".
Proof.
  intros Hc.
  destruct (Nat.le_gt_cases 4 (String.length X)) as [Hle|Hgt].
  - by rewrite substringTo_app_le.
  - transitivity false.
    + apply String.eqb_neq. intros Heq.
      assert (hasChar c (toLowerCase (substringTo 4 (X +:+ String c R))) = true) as Hin.
      { rewrite hasChar_toLowerCase_brace by done.
        rewrite substringTo_app_ge by lia. rewrite hasChar_app.
        destruct (4 - String.length X) as [|n] eqn:E; [lia|]. simpl.
        by rewrite Ascii.eqb_refl, orb_true_r. }
      rewrite Heq in Hin. destruct Hc as [->| ->]; discriminate Hin.
    + symmetry. apply String.eqb_neq. intros Heq.
      apply (f_equal String.length) in Heq. rewrite toLowerCase_length in Heq.
      pose proof (substringTo_length 4 X) as Hl.
      rewrite substringTo_all in Heq by lia. change (String.length "json") with 4 in Heq. lia.
Qed.

Lemma stripLeadingFence_app c X R :
  c = "{"%char \/ c = "}"%char ->
  stripLeadingFence (X +:+ String c R) = stripLeadingFence X +:+ String c R.
Proof.
  intros Hc. unfold stripLeadingFence.
  rewrite (startsWith_app c) by (destruct Hc as [->| ->]; reflexivity).
  destruct (startsWith X "```") eqn:Hs; [|done].
  apply prefix_length in Hs. simpl in Hs.
  rewrite substringFrom_app_le by done.
  rewrite jsonTag_app by done.
  destruct (String.eqb (toLowerCase (substringTo 4 (substringFrom 3 X))) "json") eqn:Hj;
    [|done].
  apply substringFrom_app_le.
  apply String.eqb_eq, (f_equal String.length) in Hj.
  rewrite toLowerCase_length in Hj. change (String.length "json") with 4 in Hj.
  pose proof (substringTo_length 4 (substringFrom 3 X)).
  destruct (Nat.le_gt_cases 4 (String.length (substringFrom 3 X))); [done|].
  rewrite substringTo_all in Hj by lia. lia.
Qed.

Lemma stripTrailingFence_app c P Y :
  c = "{"%char \/ c = "}"%char ->
  stripTrailingFence (P +:+ String c Y) = P +:+ String c (stripTrailingFence Y).
Proof.
  intros Hc. unfold stripTrailingFence.
  rewrite (endsWith_app c) by (destruct Hc as [->| ->]; reflexivity).
  destruct (endsWith Y "```") eqn:He; [|done].
  unfold endsWith in He. apply andb_true_iff in He as [He _].
  apply Nat.leb_le in He. simpl in He.
  rewrite length_app. simpl String.length.
  rewrite substringTo_app_ge by lia.
  replace (String.length P + S (String.length Y) - 3 - String.length P)
    with (S (String.length Y - 3)) by lia.
  done.
Qed.

Lemma hasChar_stripLeadingFence c s :
  hasChar c s = false -> hasChar c (stripLeadingFence s) = false.
Proof.
  intros H. unfold stripLeadingFence.
  repeat match goal with |- context [if ?b then _ else _] => destruct b end;
    auto using hasChar_substringFrom.
Qed.

Lemma hasChar_stripTrailingFence c s :
  hasChar c s = false -> hasChar c (stripTrailingFence s) = false.
Proof.
  intros H. unfold stripTrailingFence.
  destruct (endsWith s "```"); auto using hasChar_substringTo.
Qed.

(** ** The boolean literals are replaced between non-word characters *)

Lemma wordOnly_hasChar w c : wordOnly w = true -> isWordChar c = false -> hasChar c w = false.
Proof.
  intros Hw Hc. induction w as [|x w IH]; simpl in *; [done|].
  apply andb_true_iff in Hw as [Hx Hw]. rewrite (IH Hw), orb_false_r.
  destruct (Ascii.eqb_spec x c) as [->|]; [congruence|done].
Qed.

Lemma wordOnly_substringFrom n w : wordOnly w = true -> wordOnly (substringFrom n w) = true.
Proof.
  revert w; induction n as [|n IH]; intros [|x w]; simpl; try done.
  intros [_ H]%andb_true_iff. by apply IH.
Qed.

Lemma substringFrom_step n w :
  n < String.length w ->
  exists x, substringFrom n w = String x (substringFrom (S n) w).
Proof.
  revert w; induction n as [|n IH]; intros [|x w]; simpl; intros H; try lia.
  - exists x. by destruct w.
  - apply IH. lia.
Qed.

Lemma matchesWordAt_app w prev A c B :
  wordOnly w = true -> isWordChar c = false ->
  matchesWordAt w prev (A +:+ String c B) = matchesWordAt w prev A.
Proof.
  intros Hw Hc. unfold matchesWordAt.
  rewrite (prefix_app_nochar c) by (by apply wordOnly_hasChar).
  destruct (String.prefix w A) eqn:Hp; [|by rewrite !andb_false_r].
  apply prefix_length in Hp. rewrite substringFrom_app_le by done.
  do 2 f_equal. destruct (substringFrom (String.length w) A); simpl; [done|done].
Qed.

Lemma replaceWordFrom_split w r A :
  wordOnly w = true -> w ≠ "" ->
  forall skip prev c B,
    isWordChar c = false -> skip <= String.length w ->
    String.prefix (substringFrom (String.length w - skip) w) (A +:+ String c B) = true ->
    replaceWordFrom w r skip prev (A +:+ String c B) =
    replaceWordFrom w r skip prev A +:+ String c (replaceWordFrom w r 0 (Some c) B).
Proof.
  intros Hw Hne. induction A as [|a A IH]; intros skip prev c B Hc Hskip Hpre.
  - simpl String.append in *. destruct skip as [|k].
    + simpl. unfold matchesWordAt.
      replace (String.prefix w (String c B)) with false; [by rewrite andb_false_r|].
      symmetry. destruct w as [|x w]; [done|]. simpl in *.
      apply andb_true_iff in Hw as [Hx _].
      destruct (ascii_dec x c) as [->|]; [congruence|done].
    + exfalso.
      destruct (substringFrom_step (String.length w - S k) w) as [x Hx]; [lia|].
      pose proof (wordOnly_substringFrom (String.length w - S k) w Hw) as Hall.
      rewrite Hx in Hpre, Hall. simpl in Hpre, Hall.
      apply andb_true_iff in Hall as [Hxw _].
      destruct (ascii_dec x c) as [->|]; [congruence|discriminate].
  - change (String a A +:+ String c B) with (String a (A +:+ String c B)) in *.
    destruct skip as [|k].
    + cbn [replaceWordFrom].
      change (String a (A +:+ String c B)) with (String a A +:+ String c B) at 1.
      rewrite matchesWordAt_app by done.
      destruct (matchesWordAt w prev (String a A)) eqn:Hm.
      * rewrite app_assoc. f_equal. apply IH; [done|lia|].
        unfold matchesWordAt in Hm.
        apply andb_true_iff in Hm as [[_ Hp]%andb_true_iff _].
        destruct w as [|x w]; [done|]. simpl in Hp.
        destruct (ascii_dec x a); [|discriminate].
        simpl String.length. replace (S (String.length w) - (S (String.length w) - 1)) with 1 by lia.
        simpl. rewrite (prefix_app_nochar c); [done|].
        simpl in Hw. apply andb_true_iff in Hw as [_ Hw]. by apply wordOnly_hasChar.
      * simpl. f_equal. apply IH; [done|lia|].
        rewrite Nat.sub_0_r, substringFrom_all by done. by destruct A.
    + cbn [replaceWordFrom]. apply IH; [done|lia|].
      destruct (substringFrom_step (String.length w - S k) w) as [x Hx]; [lia|].
      rewrite Hx in Hpre. simpl in Hpre.
      destruct (ascii_dec x a); [|discriminate].
      replace (String.length w - k) with (S (String.length w - S k)) by lia. done.
Qed.

Lemma replaceWord_split w r A c B :
  wordOnly w = true -> w ≠ "" -> isWordChar c = false ->
  replaceWord w r (A +:+ String c B) =
  replaceWord w r A +:+ String c (replaceWordFrom w r 0 (Some c) B).
Proof.
  intros Hw Hne Hc. unfold replaceWord. apply replaceWordFrom_split; try done; [lia|].
  rewrite Nat.sub_0_r, substringFrom_all by done. by destruct A.
Qed.

Lemma replaceWordFrom_split0 w r prev A c B :
  wordOnly w = true -> w ≠ "" -> isWordChar c = false ->
  replaceWordFrom w r 0 prev (A +:+ String c B) =
  replaceWordFrom w r 0 prev A +:+ String c (replaceWordFrom w r 0 (Some c) B).
Proof.
  intros Hw Hne Hc. apply replaceWordFrom_split; try done; [lia|].
  rewrite Nat.sub_0_r, substringFrom_all by done. by destruct A.
Qed.

Lemma hasChar_replaceWordFrom c w r s :
  hasChar c r = false -> hasChar c s = false ->
  forall skip prev, hasChar c (replaceWordFrom w r skip prev s) = false.
Proof.
  intros Hr. induction s as [|x s IH]; intros Hs skip prev; [done|].
  simpl in Hs. apply orb_false_iff in Hs as [Hx Hs]. cbn [replaceWordFrom].
  destruct skip as [|k]; [|by apply IH].
  destruct (matchesWordAt w prev (String x s)).
  - rewrite hasChar_app, Hr. by apply IH.
  - simpl. rewrite Hx. by apply IH.
Qed.

(* ===================================================================== *)
(** * 8. extractJsonObject and cleanAIResponse                            *)
(* ===================================================================== *)

(** ** Searching for the braces *)

Lemma indexOf_ge c s : (-1 <= indexOf c s)%Z.
Proof.
  induction s as [|x s IH]; simpl; [lia|].
  destruct (Ascii.eqb x c); [lia|]. destruct (indexOf c s); lia.
Qed.

Lemma indexOf_nochar c s : hasChar c s = false -> indexOf c s = (-1)%Z.
Proof.
  induction s as [|x s IH]; simpl; [done|].
  intros [-> H]%orb_false_iff. by rewrite (IH H).
Qed.

Lemma indexOf_app c A B :
  hasChar c A = false -> indexOf c (A +:+ String c B) = Z.of_nat (String.length A).
Proof.
  induction A as [|x A IH]; simpl.
  - by rewrite Ascii.eqb_refl.
  - intros [-> H]%orb_false_iff. rewrite (IH H).
    destruct (String.length A); simpl; lia.
Qed.

Lemma lastIndexOf_nochar c s : hasChar c s = false -> lastIndexOf c s = (-1)%Z.
Proof.
  induction s as [|x s IH]; simpl; [done|].
  intros [-> H]%orb_false_iff. by rewrite (IH H).
Qed.

Lemma lastIndexOf_lt c s : (-1 <= lastIndexOf c s < Z.of_nat (String.length s))%Z.
Proof.
  induction s as [|x s IH]; simpl String.length; simpl lastIndexOf; [lia|].
  destruct (lastIndexOf c s); [lia|lia|]. destruct (Ascii.eqb x c); lia.
Qed.

Lemma lastIndexOf_app c A B :
  hasChar c B = false -> lastIndexOf c (A +:+ String c B) = Z.of_nat (String.length A).
Proof.
  intros HB. induction A as [|x A IH]; simpl.
  - by rewrite (lastIndexOf_nochar c B HB), Ascii.eqb_refl.
  - rewrite IH. destruct (String.length A); simpl; lia.
Qed.

Lemma lastIndexOf_app_nochar c A B :
  hasChar c B = false -> lastIndexOf c (A +:+ B) = lastIndexOf c A.
Proof.
  intros HB. induction A as [|x A IH]; simpl; [by apply lastIndexOf_nochar|].
  by rewrite IH.
Qed.

Lemma first_occurrence c s :
  hasChar c s = true -> exists A B, s = A +:+ String c B /\ hasChar c A = false.
Proof.
  induction s as [|x s IH]; simpl; [done|].
  destruct (Ascii.eqb_spec x c) as [->|Hne]; simpl.
  - intros _. by exists "", s.
  - intros H. destruct (IH H) as (A & B & -> & HA).
    exists (String x A), B. split; [done|]. simpl.
    destruct (Ascii.eqb_spec x c); [done|]. by rewrite HA.
Qed.

Lemma last_occurrence c s :
  hasChar c s = true -> exists A B, s = A +:+ String c B /\ hasChar c B = false.
Proof.
  induction s as [|x s IH]; simpl; [done|].
  destruct (hasChar c s) eqn:Hs.
  - intros _. destruct (IH eq_refl) as (A & B & -> & HB). by exists (String x A), B.
  - rewrite orb_false_r. intros ->%Ascii.eqb_eq. by exists "", s.
Qed.

(** ** [sliceBraces] *)

Lemma sliceBraces_framed A M Y :
  hasChar "{" A = false -> hasChar "}" Y = false ->
  sliceBraces (A +:+ String "{" (M +:+ String "}" Y)) = Ok (String "{" (M +:+ "}")).
Proof.
  intros HA HY. unfold sliceBraces.
  rewrite (indexOf_app "{" A _ HA).
  change (A +:+ String "{" (M +:+ String "}" Y))
    with (A +:+ (String "{" M +:+ String "}" Y)).
  rewrite <- app_assoc, (lastIndexOf_app "}" _ Y HY), length_app.
  simpl String.length.
  replace (_ || _ || _) with false; cycle 1.
  { symmetry. rewrite !orb_false_iff. repeat split;
      [apply Z.eqb_neq; lia | apply Z.eqb_neq; lia | apply Z.leb_gt; lia]. }
  f_equal. unfold substring. rewrite Nat2Z.id.
  replace (Z.to_nat (Z.of_nat (String.length A + S (String.length M)) + 1) - String.length A)
    with (S (S (String.length M))) by lia.
  rewrite app_assoc, substringFrom_app_ge by lia. rewrite Nat.sub_diag.
  simpl substringFrom.
  change (substringTo (S (S (String.length M))) (String "{" (M +:+ String "}" Y)))
    with (String "{" (substringTo (S (String.length M)) (M +:+ String "}" Y))).
  f_equal. rewrite substringTo_app_ge by lia.
  by replace (S (String.length M) - String.length M) with 1 by lia.
Qed.

Lemma sliceBraces_no_open t :
  hasChar "{" t = false -> sliceBraces t = Throw "No JSON object found in model output".
Proof. intros H. unfold sliceBraces. by rewrite (indexOf_nochar _ _ H). Qed.

Lemma sliceBraces_no_close_after A B :
  hasChar "{" A = false -> hasChar "}" B = false ->
  sliceBraces (A +:+ String "{" B) = Throw "No JSON object found in model output".
Proof.
  intros HA HB. unfold sliceBraces. rewrite (indexOf_app "{" A _ HA).
  rewrite lastIndexOf_app_nochar by (simpl; exact HB).
  pose proof (lastIndexOf_lt "}" A).
  replace (_ || _ || _) with true; [done|].
  symmetry. rewrite !orb_true_iff. right. apply Z.leb_le. lia.
Qed.

(** ** The repairs are local to the two ends of the text *)

Lemma isBrace_not_space c : isBrace c -> isWhiteSpace c = false.
Proof. by intros [->| ->]. Qed.

Lemma isBrace_not_word c : isBrace c -> isWordChar c = false.
Proof. by intros [->| ->]. Qed.

Lemma repairSuffix_app c fenced P Y :
  isBrace c -> repairSuffix fenced (P +:+ String c Y) = P +:+ String c (repairSuffix fenced Y).
Proof.
  intros Hc. pose proof (isBrace_not_space c Hc) as Hw. unfold repairSuffix.
  destruct fenced; rewrite !trimEnd_app by done; [|done].
  rewrite stripTrailingFence_app by done. by rewrite trimEnd_app.
Qed.

Lemma repaired_app c X R :
  isBrace c ->
  repaired (X +:+ String c R) =
  repairPrefix X +:+ String c (repairSuffix (startsWith (trimStart X) "```") R).
Proof.
  intros Hc. pose proof (isBrace_not_space c Hc) as Hw.
  unfold repaired, repairPrefix, repairSuffix, trim.
  rewrite trimStart_app, trimEnd_app by done.
  rewrite (startsWith_app c) by (destruct Hc as [->| ->]; reflexivity).
  destruct (startsWith (trimStart X) "```"); [|done].
  rewrite stripLeadingFence_app, stripTrailingFence_app by done.
  by rewrite trimStart_app, trimEnd_app.
Qed.

Lemma hasChar_repairPrefix c X : hasChar c X = false -> hasChar c (repairPrefix X) = false.
Proof.
  intros H. unfold repairPrefix.
  destruct (startsWith (trimStart X) "```");
    auto using hasChar_trimStart, hasChar_stripLeadingFence.
Qed.

Lemma hasChar_repairSuffix c fenced Y :
  hasChar c Y = false -> hasChar c (repairSuffix fenced Y) = false.
Proof.
  intros H. unfold repairSuffix.
  destruct fenced; auto using hasChar_trimEnd, hasChar_stripTrailingFence.
Qed.

Lemma hasChar_repaired c text : hasChar c text = false -> hasChar c (repaired text) = false.
Proof.
  intros H. unfold repaired, trim.
  assert (hasChar c (trimEnd (trimStart text)) = false) as Ht
    by (by apply hasChar_trimEnd, hasChar_trimStart).
  destruct (startsWith _ "```"); [|exact Ht].
  by apply hasChar_trimEnd, hasChar_trimStart, hasChar_stripTrailingFence,
           hasChar_stripLeadingFence.
Qed.

Lemma normalizeBooleans_app c A B :
  isWordChar c = false ->
  normalizeBooleans (A +:+ String c B) =
  normalizeBooleans A +:+ String c (normalizeAfter c B).
Proof.
  intros Hc. unfold normalizeBooleans, normalizeAfter.
  rewrite (replaceWord_split "True") by done.
  by rewrite (replaceWord_split "False").
Qed.

Lemma normalizeAfter_app prev c A B :
  isWordChar c = false ->
  normalizeAfter prev (A +:+ String c B) =
  normalizeAfter prev A +:+ String c (normalizeAfter c B).
Proof.
  intros Hc. unfold normalizeAfter.
  rewrite (replaceWordFrom_split0 "True") by done.
  by rewrite (replaceWordFrom_split0 "False").
Qed.

Lemma normalizeAfter_empty prev : normalizeAfter prev "" = "".
Proof. reflexivity. Qed.

Lemma hasChar_normalizeBooleans c s :
  isBrace c -> hasChar c s = false -> hasChar c (normalizeBooleans s) = false.
Proof.
  intros Hc H. unfold normalizeBooleans, replaceWord.
  apply hasChar_replaceWordFrom; [by destruct Hc as [->| ->]|].
  apply hasChar_replaceWordFrom; [by destruct Hc as [->| ->]|done].
Qed.

Lemma hasChar_normalizeAfter c prev s :
  isBrace c -> hasChar c s = false -> hasChar c (normalizeAfter prev s) = false.
Proof.
  intros Hc H. unfold normalizeAfter.
  apply hasChar_replaceWordFrom; [by destruct Hc as [->| ->]|].
  apply hasChar_replaceWordFrom; [by destruct Hc as [->| ->]|done].
Qed.

(** ** What [extractJsonObject] returns *)

Lemma extractJsonObject_repaired text :
  extractJsonObject text = sliceBraces (normalizeBooleans (repaired text)).
Proof. reflexivity. Qed.

(** A text whose first opening brace comes before its last closing brace
    yields what lies between them, with the booleans normalized; trimming
    and fence stripping change nothing of it. *)
Lemma extractJsonObject_framed X M Y :
  hasChar "{" X = false -> hasChar "}" Y = false ->
  extractJsonObject (X +:+ String "{" (M +:+ String "}" Y)) =
  Ok (String "{" (normalizeAfter "{" M +:+ "}")).
Proof.
  intros HX HY. rewrite extractJsonObject_repaired.
  rewrite (repaired_app "{") by (by left).
  rewrite (repairSuffix_app "}") by (by right).
  rewrite (normalizeBooleans_app "{") by done.
  rewrite (normalizeAfter_app "{" "}") by done.
  apply sliceBraces_framed.
  - apply hasChar_normalizeBooleans; [by left|]. by apply hasChar_repairPrefix.
  - apply hasChar_normalizeAfter; [by right|]. by apply hasChar_repairSuffix.
Qed.

Lemma normalizeBooleans_framed M :
  normalizeBooleans (String "{" (M +:+ "}")) = String "{" (normalizeAfter "{" M +:+ "}").
Proof.
  change (String "{" (M +:+ "}")) with ("" +:+ String "{" (M +:+ String "}" "")).
  rewrite (normalizeBooleans_app "{") by done.
  rewrite (normalizeAfter_app "{" "}") by done. done.
Qed.

(** Without an opening brace, or without a closing brace after the first
    opening one, [extractJsonObject] throws. *)
Lemma extractJsonObject_no_open text :
  hasChar "{" text = false ->
  extractJsonObject text = Throw "No JSON object found in model output".
Proof.
  intros H. rewrite extractJsonObject_repaired. apply sliceBraces_no_open.
  apply hasChar_normalizeBooleans; [by left|]. by apply hasChar_repaired.
Qed.

Lemma extractJsonObject_no_close_after X R :
  hasChar "{" X = false -> hasChar "}" R = false ->
  extractJsonObject (X +:+ String "{" R) = Throw "No JSON object found in model output".
Proof.
  intros HX HR. rewrite extractJsonObject_repaired.
  rewrite (repaired_app "{") by (by left).
  rewrite (normalizeBooleans_app "{") by done.
  apply sliceBraces_no_close_after.
  - apply hasChar_normalizeBooleans; [by left|]. by apply hasChar_repairPrefix.
  - apply hasChar_normalizeAfter; [by right|]. by apply hasChar_repairSuffix.
Qed.

(** [extractJsonObject] is the brace slice of the normalized text: the
    trimming and the fence stripping before it never change the result. *)
Lemma extractJsonObject_spec text :
  extractJsonObject text = sliceBraces (normalizeBooleans text).
Proof.
  destruct (hasChar "{" text) eqn:Hopen; cycle 1.
  { rewrite extractJsonObject_no_open by done. symmetry.
    apply sliceBraces_no_open, hasChar_normalizeBooleans; [by left|done]. }
  apply first_occurrence in Hopen as (X & R & -> & HX).
  destruct (hasChar "}" R) eqn:Hclose; cycle 1.
  { rewrite extractJsonObject_no_close_after by done. symmetry.
    rewrite (normalizeBooleans_app "{") by done.
    apply sliceBraces_no_close_after.
    - apply hasChar_normalizeBooleans; [by left|done].
    - apply hasChar_normalizeAfter; [by right|done]. }
  apply last_occurrence in Hclose as (M & Y & -> & HY).
  rewrite extractJsonObject_framed by done. symmetry.
  rewrite (normalizeBooleans_app "{") by done.
  rewrite (normalizeAfter_app "{" "}") by done.
  apply sliceBraces_framed.
  - apply hasChar_normalizeBooleans; [by left|done].
  - apply hasChar_normalizeAfter; [by right|done].
Qed.

(** Parser repair, for [extractJsonObject]: commentary without an opening
    brace before the fence and without a closing brace after it, a fence
    with the [json] tag, Python booleans inside. *)
Lemma extractJsonObject_parser_repair (pre post M clean : string) :
  hasChar "{" pre = false -> hasChar "}" post = false ->
  normalizeBooleans (String "{" (M +:+ "}")) = clean ->
  extractJsonObject
    (pre +:+ "```json" +:+ newline +:+ String "{" (M +:+ "}") +:+ newline +:+ "```" +:+ post)
  = Ok clean /\
  (normalizeBooleans clean = clean -> extractJsonObject clean = Ok clean) /\
  forall (T : Type) (JSON_parse : string -> Except T),
    normalizeBooleans clean = clean ->
    (extractJsonObject
       (pre +:+ "```json" +:+ newline +:+ String "{" (M +:+ "}") +:+ newline +:+ "```" +:+ post)
     ≫= JSON_parse) = (extractJsonObject clean ≫= JSON_parse).
Proof.
  intros Hpre Hpost Hclean.
  assert (extractJsonObject
            (pre +:+ "```json" +:+ newline +:+ String "{" (M +:+ "}") +:+ newline +:+
             "```" +:+ post) = Ok clean) as H1.
  { rewrite <- Hclean, (normalizeBooleans_framed M).
    replace (pre +:+ "```json" +:+ newline +:+ String "{" (M +:+ "}") +:+ newline +:+
             "```" +:+ post)
      with ((pre +:+ "```json" +:+ newline) +:+
            String "{" (M +:+ String "}" (newline +:+ "```" +:+ post))).
    - apply extractJsonObject_framed.
      + by rewrite !hasChar_app, Hpre.
      + by rewrite !hasChar_app, Hpost.
    - rewrite !app_assoc. do 3 f_equal. simpl. f_equal. by rewrite app_assoc. }
  assert (normalizeBooleans clean = clean -> extractJsonObject clean = Ok clean) as H2.
  { intros Hfix. rewrite extractJsonObject_spec, Hfix, <- Hclean.
    rewrite (normalizeBooleans_framed M).
    exact (sliceBraces_framed "" (normalizeAfter "{" M) "" eq_refl eq_refl). }
  split; [exact H1|]. split; [exact H2|].
  intros T JSON_parse Hfix. by rewrite H1, (H2 Hfix).
Qed.

(** C3.  The answer of the parser-repair scenario (a [```json] fence around
    an object with the Python literal [True], between two lines of
    commentary) at both parsers.  [extractJsonObject] returns the clean
    JSON text, the same as for the clean text itself.  [cleanAIResponse],
    whose result the request handler hands to [JSON.parse], has neither the
    normalization of booleans nor the brace slice: with the commentary it
    returns the answer unchanged, without it the object with [True] left
    in; neither is the clean text. *)
Theorem cleanAIResponse_lacks_repairs :
  extractJsonObject chattyAnswer = Ok cleanBody /\
  extractJsonObject fencedAnswer = Ok cleanBody /\
  extractJsonObject cleanBody = Ok cleanBody /\
  cleanAIResponse cleanBody = cleanBody /\
  cleanAIResponse fencedAnswer = pythonBody /\
  cleanAIResponse chattyAnswer = chattyAnswer /\
  pythonBody ≠ cleanBody /\ chattyAnswer ≠ cleanBody.
Proof. repeat split; try (vm_compute; reflexivity); discriminate. Qed.

(* ===================================================================== *)
(** * 9. sanitizeFieldValues                                              *)
(* ===================================================================== *)

Lemma findField_name fields k f :
  findField fields k = Some f -> f ∈ fields /\ name f = JsStr k.
Proof.
  unfold findField. intros H. apply find_some in H as [Hin Heq].
  split; [by apply list_elem_of_In|].
  unfold strictEqualsString in Heq. destruct (name f); try discriminate.
  apply String.eqb_eq in Heq. by subst.
Qed.

(** Entry by entry, the sanitized record is [keptValue] of the raw one. *)
Lemma sanitize_lookup (raw : gmap string JsValue) fields k :
  sanitizeFieldValues raw fields !! k = raw !! k ≫= keptValue fields k.
Proof.
  unfold sanitizeFieldValues. revert k.
  apply (map_fold_weak_ind
           (fun r (m : gmap string JsValue) => forall k, r !! k = m !! k ≫= keptValue fields k)).
  - intros k. by rewrite !lookup_empty.
  - intros i x m r Hi IH k.
    destruct (decide (i = k)) as [->|Hne].
    + rewrite lookup_insert_eq. simpl.
      specialize (IH k). rewrite Hi in IH. simpl in IH.
      unfold sanitizeEntry, keptValue, setProperty.
      destruct (String.eqb k "__proto__") eqn:Hp;
        destruct (findField fields k); try exact IH;
        destruct (truthy x); try exact IH.
      apply lookup_insert_eq.
    + rewrite lookup_insert_ne by done. rewrite <- IH.
      unfold sanitizeEntry, setProperty.
      destruct (findField fields i); [|done].
      destruct (truthy x); [|done].
      destruct (String.eqb i "__proto__"); [done|].
      by rewrite lookup_insert_ne.
Qed.

Lemma sanitizedValueOf_shape f v :
  let s := sanitizedValueOf f v in
  cleanStart s /\ exceedsMaxLength f s = false.
Proof.
  unfold sanitizedValueOf.
  destruct (exceedsMaxLength f (trim (toString v))) eqn:He.
  - unfold exceedsMaxLength in *. destruct (maxLength f) as [[|n]|]; try discriminate.
    simpl. unfold substring. simpl. split.
    + destruct (trim (toString v)) eqn:Ht; simpl; [exact I|].
      pose proof (trim_cleanStart (toString v)) as Hc. rewrite Ht in Hc. exact Hc.
    + apply Nat.ltb_ge.
      pose proof (substringTo_length (S n) (trim (toString v))). simpl in *. lia.
  - split; [apply trim_cleanStart | exact He].
Qed.

Lemma sanitizedValueOf_fixed f s :
  cleanStart s -> trimEnd s = s -> exceedsMaxLength f s = false ->
  sanitizedValueOf f (JsStr s) = s.
Proof.
  intros Hc He Hm. unfold sanitizedValueOf. simpl.
  unfold trim. rewrite trimStart_id, He by done. by rewrite Hm.
Qed.

Lemma sanitize_Some raw fields k s :
  sanitizeFieldValues raw fields !! k = Some s ->
  exists v f, raw !! k = Some v /\ findField fields k = Some f /\
              truthy v = true /\ s = sanitizedValueOf f v /\ k ≠ "__proto__".
Proof.
  rewrite sanitize_lookup. destruct (raw !! k) as [v|]; [simpl|discriminate].
  unfold keptValue. destruct (String.eqb k "__proto__") eqn:Hp; [discriminate|].
  destruct (findField fields k) as [f|]; [|discriminate].
  destruct (truthy v) eqn:Hv; [|discriminate].
  intros [= <-]. exists v, f. repeat split; try done.
  intros ->. discriminate.
Qed.

(** C5.  Sanitization never introduces a key absent from the schema: for
    every raw record and every field list, the keys of the sanitized record
    are among the names of the descriptors, that is, each key is the [name]
    of some descriptor of the list. *)
Theorem sanitize_keys_in_schema (raw : gmap string JsValue) (fields : list PDFField) :
  dom (sanitizeFieldValues raw fields) ⊆ fieldNames fields /\
  forall k, k ∈ dom (sanitizeFieldValues raw fields) ->
            exists f, f ∈ fields /\ name f = JsStr k.
Proof.
  assert (forall k, k ∈ dom (sanitizeFieldValues raw fields) ->
                    exists f, f ∈ fields /\ name f = JsStr k) as H.
  { intros k [s Hs]%elem_of_dom.
    apply sanitize_Some in Hs as (v & f & _ & Hf & _).
    apply findField_name in Hf. eauto. }
  split; [|exact H].
  intros k Hk. destruct (H k Hk) as (f & Hin & Hname).
  unfold fieldNames. apply elem_of_list_to_set, list_elem_of_omap.
  exists f. split; [done|]. by rewrite Hname.
Qed.

Lemma scenario_value :
  sanitizeFieldValues scenarioRaw scenarioFields =
  <["full_name" := "Jonathan Alexander S"]> (<["is_llc" := "yes"]> ∅).
Proof. vm_compute. reflexivity. Qed.

(** C2, as the specification states it, fails: for the scenario's schema
    and raw output, [sanitizeFieldValues] does not return the record whose
    [full_name] is the 23 characters [Jonathan Alexander Smit]. *)
Lemma scenario_not_23_characters :
  sanitizeFieldValues scenarioRaw scenarioFields ≠
  <["full_name" := "Jonathan Alexander Smit"]> (<["is_llc" := "yes"]> ∅).
Proof.
  intros H. apply (f_equal (fun m => m !! "full_name")) in H.
  vm_compute in H. discriminate.
Qed.

(** C2, amended.  For the schema [full_name] (text, maxLength 20), [is_llc]
    (checkbox) and the raw output with [full_name], [is_llc] and
    [ghost_field], [sanitizeFieldValues] returns exactly the record with
    [full_name] cut to its first 20 characters, [Jonathan Alexander S], and
    [is_llc] still the string [yes]: the unknown key is dropped and the
    checkbox value is not made a boolean. *)
Theorem scenario_sanitized :
  sanitizeFieldValues scenarioRaw scenarioFields =
    <["full_name" := "Jonathan Alexander S"]> (<["is_llc" := "yes"]> ∅) /\
  String.length "Jonathan Alexander S" = 20 /\
  sanitizeFieldValues scenarioRaw scenarioFields !! "ghost_field" = None /\
  sanitizeFieldValues scenarioRaw scenarioFields !! "is_llc" = Some "yes".
Proof. rewrite scenario_value. repeat split. Qed.

(** C4, as the specification states it, fails: a value of white space
    only is stored as the empty string and dropped by a second pass, and a
    value cut at [maxLength] may end in white space that a second pass
    trims. *)
Lemma sanitize_twice_differs :
  (let fields := [ {| name := JsStr "note"; label := JsStr "note";
                      type := JsStr "text"; maxLength := None |} ] in
   let x : gmap string JsValue := {[ "note" := JsStr "   " ]} in
   sanitizeFieldValues (asValues (sanitizeFieldValues x fields)) fields ≠
   sanitizeFieldValues x fields) /\
  (let fields := [ {| name := JsStr "note"; label := JsStr "note";
                      type := JsStr "text"; maxLength := Some 3 |} ] in
   let x : gmap string JsValue := {[ "note" := JsStr "ab cd" ]} in
   sanitizeFieldValues (asValues (sanitizeFieldValues x fields)) fields ≠
   sanitizeFieldValues x fields).
Proof.
  split; intros fields x H; apply (f_equal (fun m => m !! "note")) in H;
    vm_compute in H; discriminate.
Qed.

(** C4, amended.  For every raw record [x] and field list, if no value of
    [sanitize(x, fields)] is empty or ends in white space, then
    [sanitize(sanitize(x, fields), fields) = sanitize(x, fields)]. *)
Theorem sanitize_idempotent_when_settled (x : gmap string JsValue) (fields : list PDFField) :
  map_Forall (fun _ v => settled v) (sanitizeFieldValues x fields) ->
  sanitizeFieldValues (asValues (sanitizeFieldValues x fields)) fields =
  sanitizeFieldValues x fields.
Proof.
  intros Hall. apply map_eq. intros k.
  rewrite sanitize_lookup. unfold asValues. rewrite lookup_fmap.
  destruct (sanitizeFieldValues x fields !! k) as [s|] eqn:Hs; [simpl|done].
  destruct (Hall k s Hs) as [Hne Hend].
  apply sanitize_Some in Hs as (v & f & _ & Hf & _ & -> & Hp).
  destruct (sanitizedValueOf_shape f v) as [Hc Hm].
  unfold keptValue. rewrite Hf.
  destruct (String.eqb k "__proto__") eqn:Hk.
  { apply String.eqb_eq in Hk. done. }
  simpl. destruct (String.eqb (sanitizedValueOf f v) "") eqn:He.
  { apply String.eqb_eq in He. done. }
  simpl. f_equal. by apply sanitizedValueOf_fixed.
Qed.

Lemma sanitize_idempotent_when_settled_witness :
  map_Forall (fun _ v => settled v) (sanitizeFieldValues scenarioRaw scenarioFields) /\
  sanitizeFieldValues (asValues (sanitizeFieldValues scenarioRaw scenarioFields)) scenarioFields =
  sanitizeFieldValues scenarioRaw scenarioFields.
Proof.
  assert (map_Forall (fun _ v => settled v) (sanitizeFieldValues scenarioRaw scenarioFields)) as H.
  { rewrite scenario_value.
    apply map_Forall_insert_2; [split; [discriminate|reflexivity]|].
    apply map_Forall_insert_2; [split; [discriminate|reflexivity]|].
    apply map_Forall_empty. }
  split; [exact H|].
  exact (sanitize_idempotent_when_settled scenarioRaw scenarioFields H).
Defined.

Lemma trimEnd_idempotent s : trimEnd (trimEnd s) = trimEnd s.
Proof.
  induction s as [|c s IH]; simpl; [done|].
  destruct (trimEnd s) as [|d r] eqn:E.
  - destruct (isWhiteSpace c) eqn:Hc; simpl; [done|]. by rewrite Hc.
  - change (trimEnd (String c (String d r))) with
      (match trimEnd (String d r) with
       | EmptyString => if isWhiteSpace c then EmptyString else String c EmptyString
       | r' => String c r'
       end).
    by rewrite IH.
Qed.

(** The converse of the amended idempotence law: a second pass that
    changes nothing means every sanitized value was settled. *)
Lemma sanitize_idempotent_only_when_settled (x : gmap string JsValue) (fields : list PDFField) :
  sanitizeFieldValues (asValues (sanitizeFieldValues x fields)) fields =
  sanitizeFieldValues x fields ->
  map_Forall (fun _ v => settled v) (sanitizeFieldValues x fields).
Proof.
  intros Heq k s Hs. pose proof Hs as Hs'. rewrite <- Heq in Hs'.
  apply sanitize_Some in Hs' as (v & f & Hv & _ & Ht & Hval & _).
  unfold asValues in Hv. rewrite lookup_fmap, Hs in Hv. injection Hv as <-.
  simpl in Ht. split.
  { intros ->. discriminate Ht. }
  unfold sanitizedValueOf in Hval. simpl in Hval.
  destruct (exceedsMaxLength f (trim s)) eqn:He.
  - exfalso. unfold exceedsMaxLength in He.
    destruct (maxLength f) as [[|n]|]; try discriminate He. simpl in Hval.
    apply Nat.ltb_lt in He. unfold substring in Hval. simpl in Hval.
    apply (f_equal String.length) in Hval.
    pose proof (substringTo_length (S n) (trim s)).
    pose proof (trim_length s). simpl in *. lia.
  - rewrite Hval. unfold trim. rewrite trimEnd_idempotent. done.
Qed.

(* ===================================================================== *)
(** * 10. The form and the fillers                                         *)
(* ===================================================================== *)

Lemma getField_setField_eq (form : PDFForm) i f f' :
  getField form i = Ok f -> getField (setField form i f') i = Ok f'.
Proof.
  induction form as [|[n g] form IH]; simpl; [discriminate|].
  destruct (String.eqb n i) eqn:Hn; simpl; rewrite Hn; auto.
Qed.

Lemma getField_setField_ne (form : PDFForm) i k f' :
  i ≠ k -> getField (setField form i f') k = getField form k.
Proof.
  intros Hne. induction form as [|[n g] form IH]; simpl; [done|].
  destruct (String.eqb n i) eqn:Hn; simpl.
  - apply String.eqb_eq in Hn as ->.
    destruct (String.eqb i k) eqn:Hik; [|done].
    apply String.eqb_eq in Hik. done.
  - destruct (String.eqb n k); [done|exact IH].
Qed.

Lemma setField_same (form : PDFForm) i f :
  getField form i = Ok f -> setField form i f = form.
Proof.
  induction form as [|[n g] form IH]; simpl; [done|].
  destruct (String.eqb n i) eqn:Hn.
  - by intros [= ->].
  - intros H. by rewrite IH.
Qed.

Lemma setField_absent (form : PDFForm) i f e :
  getField form i = Throw e -> setField form i f = form.
Proof.
  induction form as [|[n g] form IH]; simpl; [done|].
  destruct (String.eqb n i) eqn:Hn; [discriminate|].
  intros H. by rewrite IH.
Qed.

(** One turn of the loop rewrites the field it names by [fieldAfter] and
    leaves the other fields alone. *)
Lemma fillField_form i x (form : PDFForm) console :
  fst (fillField i x (form, console)) =
  match getField form i with
  | Ok f => setField form i (fieldAfter i x f)
  | Throw _ => form
  end.
Proof.
  unfold fillField. destruct (getField form i) as [f|e] eqn:Hg; [|done].
  destruct f as [t ml| b | opts sel | opts sel | ]; simpl.
  - destruct (setText i ml x); simpl; [done|]. by rewrite (setField_same _ _ _ Hg).
  - by destruct (shouldCheck x).
  - destruct (includes opts x); simpl; [done|]. by rewrite (setField_same _ _ _ Hg).
  - destruct (includes opts x); simpl; [done|]. by rewrite (setField_same _ _ _ Hg).
  - by rewrite (setField_same _ _ _ Hg).
Qed.

Lemma fillField_getField i x (st : PDFForm * list Console) k :
  getField (fst (fillField i x st)) k =
  if decide (i = k) then mapE (fieldAfter i x) (getField (fst st) k)
  else getField (fst st) k.
Proof.
  destruct st as [form console]. rewrite fillField_form. simpl.
  destruct (decide (i = k)) as [->|Hne].
  - destruct (getField form k) as [f|e] eqn:Hg; simpl.
    + by apply getField_setField_eq with f.
    + exact Hg.
  - destruct (getField form i); [by apply getField_setField_ne | done].
Qed.

(** After the whole loop, every field named by the record has been through
    [fieldAfter] once, and no other field has changed. *)
Lemma fillFields_getField_from (form : PDFForm) c0 (values : gmap string string) k :
  getField (fst (map_fold fillField (form, c0) values)) k =
  match values !! k with
  | Some v => mapE (fieldAfter k v) (getField form k)
  | None => getField form k
  end.
Proof.
  revert k.
  apply (map_fold_weak_ind
           (fun r (m : gmap string string) =>
              forall k, getField (fst r) k =
                        match m !! k with
                        | Some v => mapE (fieldAfter k v) (getField form k)
                        | None => getField form k
                        end)).
  - intros k. by rewrite lookup_empty.
  - intros i x m r Hi IH k. rewrite fillField_getField.
    destruct (decide (i = k)) as [->|Hne].
    + rewrite lookup_insert_eq, IH, Hi. done.
    + rewrite lookup_insert_ne by done. apply IH.
Qed.

Lemma fillFields_getField (form : PDFForm) (values : gmap string string) k :
  getField (fst (fillFields form values)) k =
  match values !! k with
  | Some v => mapE (fieldAfter k v) (getField form k)
  | None => getField form k
  end.
Proof. apply fillFields_getField_from. Qed.

Lemma fillField_console i x (form : PDFForm) console :
  snd (fillField i x (form, console)) = console ++ [turnEntry i x (getField form i)].
Proof.
  unfold fillField, turnEntry.
  destruct (getField form i) as [f|e]; [|done].
  destruct f as [t ml| b | opts sel | opts sel | ]; simpl;
    repeat match goal with
           | |- context [match ?c with _ => _ end] => destruct c; simpl
           end; done.
Qed.

(** Induction over the loop of [fillPDFFields]: a turn meets the field it
    names in the state the document was loaded in. *)
Lemma fill_loop_ind (form : PDFForm) c0
    (P : PDFForm * list Console -> gmap string string -> Prop) :
  P (form, c0) ∅ ->
  (forall i x m r,
      m !! i = None -> getField (fst r) i = getField form i -> P r m ->
      P (fillField i x r) (<[i:=x]> m)) ->
  forall values, P (map_fold fillField (form, c0) values) values.
Proof.
  intros H0 Hstep values.
  cut (P (map_fold fillField (form, c0) values) values /\ forall k, values !! k = None ->
                 getField (fst (map_fold fillField (form, c0) values)) k = getField form k).
  { tauto. }
  apply (map_fold_weak_ind
           (fun r (m : gmap string string) =>
              P r m /\ forall k, m !! k = None -> getField (fst r) k = getField form k)).
  - split; [exact H0|done].
  - intros i x m r Hi [HP Hkeep]. split.
    + apply Hstep; auto.
    + intros k Hk. apply lookup_insert_None in Hk as [Hk Hne].
      rewrite fillField_getField. rewrite decide_False by done. auto.
Qed.

(** The console after the loop: the lines before it, and one line per
    entry of the record. *)
Lemma fillFields_console_intro (form : PDFForm) c0 (values : gmap string string) k v :
  values !! k = Some v ->
  turnEntry k v (getField form k) ∈ snd (map_fold fillField (form, c0) values).
Proof.
  revert k v.
  apply (fill_loop_ind form c0
           (fun r m => forall k v, m !! k = Some v ->
                                   turnEntry k v (getField form k) ∈ snd r)).
  - intros k v. by rewrite lookup_empty.
  - intros i x m [f c] Hi Hg IH k v Hkv. rewrite fillField_console.
    simpl in *. apply elem_of_app.
    destruct (decide (i = k)) as [->|Hne].
    + rewrite lookup_insert_eq in Hkv. injection Hkv as ->.
      right. rewrite Hg. apply list_elem_of_singleton. done.
    + rewrite lookup_insert_ne in Hkv by done. left. eauto.
Qed.

Lemma fillFields_console_elim (form : PDFForm) c0 (values : gmap string string) e :
  e ∈ snd (map_fold fillField (form, c0) values) ->
  e ∈ c0 \/ exists k v, values !! k = Some v /\ e = turnEntry k v (getField form k).
Proof.
  revert e.
  apply (fill_loop_ind form c0
           (fun r m => forall e, e ∈ snd r ->
              e ∈ c0 \/ exists k v, m !! k = Some v /\ e = turnEntry k v (getField form k))).
  - intros e He. by left.
  - intros i x m [f c] Hi Hg IH e He. rewrite fillField_console in He.
    simpl in *. apply elem_of_app in He as [He|He].
    + destruct (IH e He) as [?|(k & v & Hkv & ->)]; [by left|right].
      exists k, v. split; [|done].
      rewrite lookup_insert_ne; [done|]. intros ->. congruence.
    + apply list_elem_of_singleton in He as ->. right.
      exists i, x. rewrite lookup_insert_eq, Hg. done.
Qed.

(** ** The checkbox rule *)

Lemma lowerChar_one c : lowerChar c = "1"%char -> c = "1"%char.
Proof.
  destruct c as [[] [] [] [] [] [] [] []]; vm_compute; intros H;
    first [reflexivity | discriminate H].
Qed.

Lemma toLowerCase_one v : toLowerCase v = "1" <-> v = "1".
Proof.
  split; [|by intros ->].
  destruct v as [|c [|d v]]; simpl; try discriminate.
  intros [= H]. by rewrite (lowerChar_one c H).
Qed.

(** [shouldCheck] is the case-insensitive match against the five words. *)
Lemma shouldCheck_spec v : shouldCheck v = true <-> toLowerCase v ∈ checkedWords.
Proof.
  unfold shouldCheck, checkedWords.
  rewrite !orb_true_iff, !String.eqb_eq, !elem_of_cons, elem_of_nil.
  rewrite toLowerCase_one. tauto.
Qed.

Lemma shouldCheckWithLib_spec v :
  shouldCheckWithLib v = true <-> toLowerCase v ∈ ["true"; "yes"; "1"; "on"].
Proof.
  unfold shouldCheckWithLib.
  rewrite !orb_true_iff, !String.eqb_eq, !elem_of_cons, elem_of_nil.
  rewrite toLowerCase_one. tauto.
Qed.

(** A checkbox reached by [fillPDFFields] ends checked exactly when its
    value matches one of the five words. *)
Lemma fillFields_checkbox (form : PDFForm) (values : gmap string string) k v b :
  values !! k = Some v -> getField form k = Ok (PDFCheckBox b) ->
  getField (fst (fillFields form values)) k = Ok (PDFCheckBox (shouldCheck v)).
Proof. intros Hv Hg. rewrite fillFields_getField, Hv, Hg. done. Qed.

(** [fillPDFFields]: the box ends checked exactly when its value, in lower
    case, is one of the five words. *)
Lemma fillFields_checkbox_rule (form : PDFForm) (values : gmap string string) k v b :
  values !! k = Some v -> getField form k = Ok (PDFCheckBox b) ->
  (getField (fst (fillFields form values)) k = Ok (PDFCheckBox true) <->
   toLowerCase v ∈ checkedWords) /\
  (getField (fst (fillFields form values)) k = Ok (PDFCheckBox false) <->
   toLowerCase v ∉ checkedWords).
Proof.
  intros Hv Hg. rewrite (fillFields_checkbox form values k v b Hv Hg).
  rewrite <- shouldCheck_spec.
  destruct (shouldCheck v); split; split; intros H; try done; try discriminate H.
Qed.

Example checkbox_truth_table :
  Forall (fun v => shouldCheck v = true) ["YES"; "On"; "1"; "checked"; "CHECKED"; "tRuE"] /\
  Forall (fun v => shouldCheck v = false) [""; "false"; "no"; "random"].
Proof. split; repeat constructor. Qed.

(** ** The guard of the choice fields *)

Lemma fieldAfter_kind i x f :
  fieldTypeOf (fieldAfter i x f) = fieldTypeOf f /\
  maxLengthOf (fieldAfter i x f) = maxLengthOf f.
Proof.
  destruct f as [t ml| b | opts sel | opts sel | ]; simpl; try done.
  - unfold setText. destruct ml as [n|]; [destruct (n <? String.length x)%nat|]; done.
  - destruct (includes opts x); done.
  - destruct (includes opts x); done.
Qed.

Lemma includes_elem_of options value : includes options value = true <-> value ∈ options.
Proof.
  unfold includes. rewrite existsb_exists. split.
  - intros (x & Hin & Heq). apply String.eqb_eq in Heq as ->. by apply list_elem_of_In.
  - intros Hin. exists value. split; [by apply list_elem_of_In | apply String.eqb_refl].
Qed.

(** [fillPDFFields]: a value outside the options leaves the selection of a
    radio group or dropdown as it was, and the loop warns about it. *)
Lemma fillFields_invalid_option (form : PDFForm) (values : gmap string string) k v options :
  values !! k = Some v -> v ∉ options ->
  (forall selected,
      getField form k = Ok (PDFRadioGroup options selected) ->
      getField (fst (fillFields form values)) k = Ok (PDFRadioGroup options selected) /\
      ConsoleWarn ("Radio field '" +:+ k +:+ "' does not have option '" +:+ v +:+
                   "'. Available options:") [JsArr (JsStr <$> options)]
        ∈ snd (fillFields form values)) /\
  (forall selected,
      getField form k = Ok (PDFDropdown options selected) ->
      getField (fst (fillFields form values)) k = Ok (PDFDropdown options selected) /\
      ConsoleWarn ("Dropdown field '" +:+ k +:+ "' does not have option '" +:+ v +:+
                   "'. Available options:") [JsArr (JsStr <$> options)]
        ∈ snd (fillFields form values)).
Proof.
  intros Hv Hno.
  assert (includes options v = false) as Hinc.
  { destruct (includes options v) eqn:E; [|done]. by apply includes_elem_of in E. }
  split; intros selected Hg; (split;
    [ rewrite fillFields_getField, Hv, Hg; simpl; by rewrite Hinc
    | pose proof (fillFields_console_intro form
        [ConsoleLog "Filling PDF with values:" [JsObj (asValues values)]] values k v Hv) as H;
      rewrite Hg in H; simpl in H; rewrite Hinc in H; exact H ]).
Qed.

(** [fillPDFFields]: the selection of a group after the loop is the one it
    had, or one of its options. *)
Lemma fillFields_selects_options (form : PDFForm) (values : gmap string string) k options selected' :
  getField (fst (fillFields form values)) k = Ok (PDFRadioGroup options selected') ->
  exists selected,
    getField form k = Ok (PDFRadioGroup options selected) /\
    (selected' = selected \/ exists v, selected' = Some v /\ v ∈ options).
Proof.
  rewrite fillFields_getField.
  destruct (values !! k) as [v|]; [|intros H; exists selected'; auto].
  destruct (getField form k) as [f|e]; simpl; [|intros H; discriminate H].
  destruct f as [t ml| b | opts sel | opts sel | ]; simpl;
    try (intros H; discriminate H).
  - intros [= H]. destruct (fieldAfter_kind k v (PDFTextField t ml)) as [Hk _].
    simpl in Hk. rewrite H in Hk. discriminate Hk.
  - destruct (includes opts v) eqn:E; intros [= <- <-]; eexists; split; eauto.
    right. exists v. split; [done|]. by apply includes_elem_of.
  - destruct (includes opts v); intros H; discriminate H.
Qed.

(** ** Filling changes values only *)

Lemma describeFields_setField (form : PDFForm) i f f' :
  getField form i = Ok f ->
  fieldTypeOf f' = fieldTypeOf f -> maxLengthOf f' = maxLengthOf f ->
  describeFields (setField form i f') = describeFields form.
Proof.
  intros Hg Ht Hm. induction form as [|[n g] form IH]; simpl in *; [done|].
  destruct (String.eqb n i) eqn:Hn; simpl.
  - injection Hg as ->. unfold describeField. simpl. by rewrite Ht, Hm.
  - f_equal. by apply IH.
Qed.

Lemma fillFields_describeFields_from (form : PDFForm) c0 (values : gmap string string) :
  describeFields (fst (map_fold fillField (form, c0) values)) = describeFields form.
Proof.
  apply (map_fold_weak_ind
           (fun r (m : gmap string string) => describeFields (fst r) = describeFields form)).
  - done.
  - intros i x m [f c] Hi IH. rewrite fillField_form. simpl in *.
    destruct (getField f i) as [g|e] eqn:Hg; [|done].
    rewrite <- IH. destruct (fieldAfter_kind i x g). by apply describeFields_setField with g.
Qed.

Lemma fillFields_describeFields (form : PDFForm) (values : gmap string string) :
  describeFields (fst (fillFields form values)) = describeFields form.
Proof. apply fillFields_describeFields_from. Qed.

(** The descriptors of a loaded form pass [validatePDFFields]. *)
Lemma validate_describeFields (form : PDFForm) :
  validatePDFFields (describeFields form) = true.
Proof. induction form as [|[n g] form IH]; simpl; [done|exact IH]. Qed.

Lemma findField_describeFields (form : PDFForm) k :
  findField (describeFields form) k =
  match getField form k with
  | Ok f => Some (describeField (k, f))
  | Throw _ => None
  end.
Proof.
  unfold findField. induction form as [|[n g] form IH]; simpl; [done|].
  destruct (String.eqb n k) eqn:Hn; [|exact IH].
  apply String.eqb_eq in Hn as ->. done.
Qed.

(** C1.  The checkbox rule at the value [checked]: the test of
    [fillPDFFields] accepts it and the loop checks the box; the test of
    [fillPDFFieldsWithLib] has four words only, rejects it, and the loop
    unchecks a box that was checked. *)
Theorem withLib_leaves_checked_unchecked :
  shouldCheck "checked" = true /\
  shouldCheckWithLib "checked" = false /\
  fst (fillFields [("agree", PDFCheckBox false)] {[ "agree" := "checked" ]})
    = [("agree", PDFCheckBox true)] /\
  fst (fillFieldsWithLib [("agree", PDFCheckBox true)] {[ "agree" := "checked" ]})
    = [("agree", PDFCheckBox false)].
Proof. repeat split; vm_compute; reflexivity. Qed.

(** C6.  A radio group with the options [red] and [blue], [red] selected,
    and the value [green]: both fillers leave the selection as it was;
    [fillPDFFields] writes a warning to the console, [fillPDFFieldsWithLib]
    writes nothing. *)
Theorem withLib_skips_silently :
  let form : PDFForm := [("color", PDFRadioGroup ["red"; "blue"] (Some "red"))] in
  let values : gmap string string := {[ "color" := "green" ]} in
  fillFieldsWithLib form values = (form, []) /\
  fillFields form values =
    (form,
     [ConsoleLog "Filling PDF with values:" [JsObj (asValues values)];
      ConsoleWarn "Radio field 'color' does not have option 'green'. Available options:"
                  [JsArr [JsStr "red"; JsStr "blue"]]]).
Proof. intros form values. split; vm_compute; reflexivity. Qed.

(** C9.  Filling then re-extracting is schema-preserving.  Given that
    pdf-lib reads back from the bytes it wrote a form with the same fields
    (names, classes, maximal lengths), for every document that loads and
    every record of values: [fillPDFFields] returns the saved bytes, and
    [extractPDFFields] yields the same descriptors, hence the same
    (name, kind) pairs in the same order, from them as from the original
    document; the loop changes the values of the fields only. *)
Theorem fill_then_extract_same_schema {Bytes : Type}
    (PDFDocument_load : Bytes -> Except PDFForm)
    (PDFDocument_save : PDFForm -> Except Bytes)
    (pdfBuffer filled : Bytes) (form : PDFForm) (values : gmap string string) :
  (forall f b, PDFDocument_save f = Ok b ->
     exists f', PDFDocument_load b = Ok f' /\ describeFields f' = describeFields f) ->
  PDFDocument_load pdfBuffer = Ok form ->
  PDFDocument_save (fst (fillFields form values)) = Ok filled ->
  fst (fillPDFFields PDFDocument_load PDFDocument_save pdfBuffer values) = Ok filled /\
  extractPDFFields PDFDocument_load filled = extractPDFFields PDFDocument_load pdfBuffer /\
  extractPDFFields PDFDocument_load pdfBuffer = Ok (describeFields form) /\
  describeFields (fst (fillFields form values)) = describeFields form.
Proof.
  intros Hrt Hload Hsave.
  unfold fillPDFFields, extractPDFFields. rewrite Hload.
  destruct (fillFields form values) as [form' console] eqn:Hfill. simpl in Hsave.
  rewrite Hsave. simpl.
  destruct (Hrt _ _ Hsave) as (f' & -> & Hd).
  pose proof (fillFields_describeFields form values) as Hsame.
  rewrite Hfill in Hsame. simpl in Hsame.
  rewrite Hd, Hsame. done.
Qed.

Lemma fill_then_extract_same_schema_witness :
  let form : PDFForm :=
    [("full_name", PDFTextField None (Some 20)); ("is_llc", PDFCheckBox false)] in
  let values : gmap string string :=
    <["full_name" := "Jonathan Alexander S"]> (<["is_llc" := "yes"]> ∅) in
  extractPDFFields (Bytes := PDFForm) Ok (fst (fillFields form values))
  = extractPDFFields (Bytes := PDFForm) Ok form.
Proof.
  intros form values.
  refine (proj1 (proj2 (fill_then_extract_same_schema (Bytes := PDFForm) Ok Ok
            form (fst (fillFields form values)) form values _ eq_refl eq_refl))).
  intros f b [= <-]. exists f. split; reflexivity.
Defined.

Lemma falsyValues_falsy v : v ∈ falsyValues -> truthy v = false.
Proof.
  unfold falsyValues. rewrite !elem_of_cons, elem_of_nil.
  intros [->|[->|[->|[->|[]]]]]; reflexivity.
Qed.

Lemma sanitize_drops_falsy (raw : gmap string JsValue) fields k v :
  raw !! k = Some v -> truthy v = false -> sanitizeFieldValues raw fields !! k = None.
Proof.
  intros Hk Hv. rewrite sanitize_lookup, Hk. simpl. unfold keptValue.
  destruct (String.eqb k "__proto__"); [done|].
  destruct (findField fields k); [|done]. by rewrite Hv.
Qed.

Lemma unchecked_line_origin k' k v found :
  ConsoleLog ("Unchecked checkbox '" +:+ k' +:+ "'") [] = turnEntry k v found ->
  exists b, found = Ok (PDFCheckBox b) /\ shouldCheck v = false.
Proof.
  unfold turnEntry.
  destruct found as [f|e]; [|intros H; discriminate H].
  destruct f as [t ml| b | opts sel | opts sel | ].
  - destruct (setText k ml v); intros H; discriminate H.
  - destruct (shouldCheck v); [intros H; discriminate H|]. eauto.
  - destruct (includes opts v); intros H; discriminate H.
  - destruct (includes opts v); intros H; discriminate H.
  - intros H; discriminate H.
Qed.

Lemma append_cancel_r (a b t : string) : a +:+ t = b +:+ t -> a = b.
Proof.
  revert b. induction a as [|x a IH]; intros [|y b] H; simpl in H.
  - done.
  - apply (f_equal String.length) in H. simpl in H. rewrite length_app in H. lia.
  - apply (f_equal String.length) in H. simpl in H. rewrite length_app in H. lia.
  - injection H as -> H. by rewrite (IH b H).
Qed.

(** The line that reports an unchecked box names the key of the entry
    that unchecked it. *)
Lemma unchecked_line_key k' k v found :
  ConsoleLog ("Unchecked checkbox '" +:+ k' +:+ "'") [] = turnEntry k v found -> k' = k.
Proof.
  intros H. pose proof H as H'.
  apply unchecked_line_origin in H' as (b & -> & Hno).
  unfold turnEntry in H. rewrite Hno in H. simpl in H.
  injection H as H. by apply append_cancel_r in H.
Qed.

(** C10, as stated, fails: the pipeline does uncheck a box.  For the raw
    value "no" (a string that is not empty) under the name of a checked
    box, the sanitized record keeps the entry and the filler unchecks the
    box and reports it. *)
Lemma string_no_unchecks_a_checked_box :
  let raw : gmap string JsValue := {[ "is_llc" := JsStr "no" ]} in
  let form : PDFForm := [("is_llc", PDFCheckBox true)] in
  let sanitized := sanitizeFieldValues raw (describeFields form) in
  sanitized = {[ "is_llc" := "no" ]} /\
  fillFields form sanitized =
    ([("is_llc", PDFCheckBox false)],
     [ConsoleLog "Filling PDF with values:" [JsObj (asValues sanitized)];
      ConsoleLog "Unchecked checkbox 'is_llc'" []]).
Proof. intros raw form sanitized. split; vm_compute; reflexivity. Qed.

(** C10, amended.  A raw entry whose value is the empty string, [false],
    [null] or [0] is left out of the sanitized record, whatever the schema;
    in particular a checkbox value [false] never reaches the filler: the
    filler leaves the field of that name as it was and does not take the
    branch that unchecks for it. *)
Theorem falsy_value_never_reaches_filler
    (raw : gmap string JsValue) (fields : list PDFField) (form : PDFForm)
    (k : string) (v : JsValue) :
  raw !! k = Some v -> v ∈ falsyValues ->
  sanitizeFieldValues raw fields !! k = None /\
  getField (fst (fillFields form (sanitizeFieldValues raw fields))) k = getField form k /\
  ConsoleLog ("Unchecked checkbox '" +:+ k +:+ "'") []
    ∉ snd (fillFields form (sanitizeFieldValues raw fields)).
Proof.
  intros Hk Hv. apply falsyValues_falsy in Hv.
  pose proof (sanitize_drops_falsy raw fields k v Hk Hv) as Hnone.
  split; [exact Hnone|]. split.
  { by rewrite fillFields_getField, Hnone. }
  intros Hin. unfold fillFields in Hin.
  apply fillFields_console_elim in Hin as [Hin|(k1 & s & Hs & Heq)].
  - apply list_elem_of_singleton in Hin. discriminate Hin.
  - apply unchecked_line_key in Heq as ->. congruence.
Qed.

Lemma falsy_value_never_reaches_filler_witness :
  let raw : gmap string JsValue :=
    <["full_name" := JsStr "Ada"]> (<["is_llc" := JsBool false]> ∅) in
  let form : PDFForm :=
    [("full_name", PDFTextField None (Some 20)); ("is_llc", PDFCheckBox true)] in
  sanitizeFieldValues raw (describeFields form) !! "is_llc" = None /\
  getField (fst (fillFields form (sanitizeFieldValues raw (describeFields form)))) "is_llc"
  = Ok (PDFCheckBox true).
Proof.
  intros raw form.
  destruct (falsy_value_never_reaches_filler raw (describeFields form) form
              "is_llc" (JsBool false)) as (H1 & H2 & _).
  - reflexivity.
  - unfold falsyValues. rewrite !elem_of_cons. right. left. reflexivity.
  - split; [exact H1 | exact H2].
Defined.

(* ===================================================================== *)
(** * 11. Validation and the request handler                              *)
(* ===================================================================== *)

Lemma typeof_string v : String.eqb (typeof v) "string" = true <-> exists s, v = JsStr s.
Proof.
  destruct v; simpl; split; try discriminate; try (intros [? [=]]); eauto.
Qed.

Lemma validatePDFFields_spec fields :
  validatePDFFields fields = true <-> Forall stringTyped fields.
Proof.
  unfold validatePDFFields. rewrite forallb_forall, Forall_forall.
  split; intros H f Hf.
  - apply list_elem_of_In in Hf. specialize (H f Hf).
    apply andb_true_iff in H as [H1 H2]. split; by apply typeof_string.
  - apply list_elem_of_In in Hf. destruct (H f Hf) as [H1 H2].
    apply andb_true_iff. split; by apply typeof_string.
Qed.

(** C7, as the specification states it, fails: [validatePDFFields] accepts
    a list whose descriptor has an empty name. *)
Lemma validate_accepts_empty_name :
  ~ (forall fields, validatePDFFields fields = true -> Forall wellFormedDescriptor fields).
Proof.
  intros H.
  specialize (H [ {| name := JsStr ""; label := JsStr ""; type := JsStr "text";
                     maxLength := None |} ] eq_refl).
  apply Forall_inv in H. destruct H as [(n & Hn & Hne) _].
  simpl in Hn. injection Hn as <-. by apply Hne.
Qed.

(** C7, amended.  For a field list that is not empty, [validatePDFFields]
    accepts it exactly when the [name] and the [type] of every descriptor
    are strings (any strings); a list it rejects makes the handler answer
    [success: false] with status 400 instead of calling the model. *)
Theorem validate_accepts_string_typed (fields : list PDFField) :
  fields ≠ [] ->
  (validatePDFFields fields = true <-> Forall stringTyped fields) /\
  (validatePDFFields fields = false ->
   forall (Bytes : Type) (PDFDocument_load : Bytes -> Except PDFForm)
          (PDFDocument_save : PDFForm -> Except Bytes)
          (generateFillFieldsPrompt : string -> list PDFField -> string -> string)
          (generateText : string -> string -> Except string)
          (JSON_parse : string -> option JsValue)
          (put : string -> Bytes -> Except string) (toISOString : string)
          (pdfBuffer : Bytes) (pdfText : string) (request : FillPDFRequest),
     afterExtraction PDFDocument_load PDFDocument_save generateFillFieldsPrompt
                     generateText JSON_parse put toISOString
                     pdfBuffer pdfText fields request
     = Ok (failureBody "Invalid PDF fields extracted", 400)).
Proof.
  intros _. split; [apply validatePDFFields_spec|].
  intros Hv **. unfold afterExtraction. by rewrite Hv.
Qed.

Lemma validate_accepts_string_typed_witness :
  validatePDFFields scenarioFields = true <-> Forall stringTyped scenarioFields.
Proof.
  refine (proj1 (validate_accepts_string_typed scenarioFields _)).
  discriminate.
Defined.

Section ParseFailure.

Context {Bytes : Type}.
Variable fetch : string -> Except (@FetchResponse Bytes).
Variable pdfParse : Bytes -> Except string.
Variable PDFDocument_load : Bytes -> Except PDFForm.
Variable PDFDocument_save : PDFForm -> Except Bytes.
Variable generateFillFieldsPrompt : string -> list PDFField -> string -> string.
Variable generateText : string -> string -> Except string.
Variable JSON_parse : string -> option JsValue.
Variable put : string -> Bytes -> Except string.
Variable toISOString : string.

#[local] Abbreviation handler :=
  (POST fetch pdfParse PDFDocument_load PDFDocument_save
        generateFillFieldsPrompt generateText JSON_parse put toISOString).
#[local] Abbreviation tool :=
  (fillPdfForm_execute fetch pdfParse PDFDocument_load PDFDocument_save
                       generateFillFieldsPrompt generateText JSON_parse put toISOString).

(** Whenever the handler returns a [fields] record, the model's cleaned
    answer was decoded, and the record is the sanitized decoding. *)
Lemma fields_only_after_decoding authenticated body m :
  fields (fst (handler authenticated body)) = Some m ->
  success (fst (handler authenticated body)) = true /\
  exists text v entries pdfFields,
    JSON_parse (cleanAIResponse text) = Some v /\
    Object_entries v = Ok entries /\
    m = sanitizeFieldValues entries pdfFields.
Proof.
  unfold POST.
  destruct authenticated; simpl; [|discriminate].
  destruct body as [request|e]; simpl; [|discriminate].
  destruct (String.eqb (pdfUrl request) "" || String.eqb (userInfo request) "");
    simpl; [discriminate|].
  destruct (downloadPDFFromUrl fetch (pdfUrl request)) as [pdfBuffer|e]; simpl;
    [|discriminate].
  destruct (extractPDFFields PDFDocument_load pdfBuffer) as [pdfFields|e]; simpl;
    [|discriminate].
  unfold afterExtraction.
  destruct (validatePDFFields pdfFields); simpl; [|discriminate].
  destruct (generateText _ _) as [text|e]; simpl; [|discriminate].
  unfold afterModel.
  destruct (JSON_parse (cleanAIResponse text)) as [v|] eqn:Hparse; simpl; [|discriminate].
  destruct (Object_entries v) as [entries|e] eqn:Hent; simpl; [|discriminate].
  destruct (fillPDFFields _ _ _ _).1 as [filled|e]; simpl; [|discriminate].
  destruct (put _ filled) as [url|e]; simpl; [|discriminate].
  intros [= <-]. split; [done|]. eauto 10.
Qed.

(** The [fillPdfForm] tool reports the same failure through its [catch]. *)
Lemma execute_parse_failure
    (params : FillPDFRequest) (pdfBuffer : Bytes) (form : PDFForm) (text : string) :
  pdfUrl params ≠ "" -> userInfo params ≠ "" ->
  downloadPDFFromUrl fetch (pdfUrl params) = Ok pdfBuffer ->
  PDFDocument_load pdfBuffer = Ok form ->
  generateText "chat-model"
               (generateFillFieldsPrompt (extractPDFText pdfParse pdfBuffer)
                                         (describeFields form) (userInfo params))
  = Ok text ->
  JSON_parse (cleanAIResponse text) = None ->
  tool params
  = failureBody "Error filling PDF form: Failed to parse AI response for field values".
Proof.
  intros Hurl Hinfo Hdown Hload Hgen Hparse. unfold fillPdfForm_execute.
  apply String.eqb_neq in Hurl, Hinfo. rewrite Hurl, Hinfo, Hdown. simpl.
  unfold extractPDFFields. rewrite Hload. simpl.
  rewrite validate_describeFields. simpl. rewrite Hgen. simpl. by rewrite Hparse.
Qed.

(** The case of C8 that the handler does catch.  When [JSON.parse] throws
    on the cleaned answer of the model, the request that got that far is
    answered
    [{ success: false, message: 'Failed to parse AI response for field values' }]
    with status 500, with no [fields] and no [filledPdfUrl]; whenever the
    handler returns a [fields] record, the answer was decoded and the record
    is the sanitized decoding; [extractJsonObject] throws on a text with
    no opening brace; and the [fillPdfForm] tool, for the same answer of its
    model, returns the failure with the same message after its prefix. *)
Theorem parse_failure_returns_no_fields
    (request : FillPDFRequest) (pdfBuffer : Bytes) (form : PDFForm) (text : string) :
  pdfUrl request ≠ "" -> userInfo request ≠ "" ->
  downloadPDFFromUrl fetch (pdfUrl request) = Ok pdfBuffer ->
  PDFDocument_load pdfBuffer = Ok form ->
  generateText "gpt-4o-mini"
               (generateFillFieldsPrompt (extractPDFText pdfParse pdfBuffer)
                                         (describeFields form) (userInfo request))
  = Ok text ->
  JSON_parse (cleanAIResponse text) = None ->
  handler true (Ok request)
  = (failureBody "Failed to parse AI response for field values", 500) /\
  (forall authenticated body m,
      fields (fst (handler authenticated body)) = Some m ->
      success (fst (handler authenticated body)) = true /\
      exists answer v entries pdfFields,
        JSON_parse (cleanAIResponse answer) = Some v /\
        Object_entries v = Ok entries /\
        m = sanitizeFieldValues entries pdfFields) /\
  (forall prose,
      hasChar "{" prose = false ->
      extractJsonObject prose = Throw "No JSON object found in model output") /\
  (generateText "chat-model"
                (generateFillFieldsPrompt (extractPDFText pdfParse pdfBuffer)
                                          (describeFields form) (userInfo request))
   = Ok text ->
   tool request
   = failureBody "Error filling PDF form: Failed to parse AI response for field values").
Proof.
  intros Hurl Hinfo Hdown Hload Hgen Hparse. split; [|split; [|split]]; cycle 3.
  { intros Hgen'. by apply execute_parse_failure with pdfBuffer form text. }
  - unfold POST. simpl.
    apply String.eqb_neq in Hurl, Hinfo. rewrite Hurl, Hinfo. simpl.
    rewrite Hdown. simpl. unfold extractPDFFields. rewrite Hload. simpl.
    unfold afterExtraction. rewrite validate_describeFields. simpl.
    rewrite Hgen. simpl. unfold afterModel. by rewrite Hparse.
  - apply fields_only_after_decoding.
  - apply extractJsonObject_no_open.
Qed.

End ParseFailure.

Lemma parse_failure_returns_no_fields_witness :
  POST (Bytes := string)
       (fun _ => Ok {| ok := true; status := 200; statusText := "OK";
                       arrayBuffer := "%PDF-1.7" |})
       (fun _ => Ok "Request for Taxpayer Identification Number")
       (fun _ => Ok [("full_name", PDFTextField None (Some 20))])
       (fun _ => Ok "%PDF-1.7")
       (fun _ _ info => info)
       (fun _ _ => Ok "I am sorry, I cannot fill in this form.")
       (fun s => if String.eqb s "{}" then Some (JsObj ∅) else None)
       (fun _ _ => Ok "https://blob.example/filled-form.pdf")
       "2025-01-01T00:00:00.000Z"
       true
       (Ok {| pdfUrl := "https://example.org/w9.pdf"; userInfo := "Ada Lovelace";
              formType := Some "w9" |})
  = (failureBody "Failed to parse AI response for field values", 500).
Proof.
  refine (proj1 (parse_failure_returns_no_fields (Bytes := string) _ _ _ _ _ _ _ _ _
                   _ "%PDF-1.7" [("full_name", PDFTextField None (Some 20))]
                   "I am sorry, I cannot fill in this form." _ _ _ _ _ _));
    first [reflexivity | discriminate].
Defined.

Section StructureNotChecked.

Context {Bytes : Type}.
Variable fetch : string -> Except (@FetchResponse Bytes).
Variable pdfParse : Bytes -> Except string.
Variable PDFDocument_load : Bytes -> Except PDFForm.
Variable PDFDocument_save : PDFForm -> Except Bytes.
Variable generateFillFieldsPrompt : string -> list PDFField -> string -> string.
Variable generateText : string -> string -> Except string.
Variable JSON_parse : string -> option JsValue.
Variable put : string -> Bytes -> Except string.
Variable toISOString : string.

#[local] Abbreviation handler :=
  (POST fetch pdfParse PDFDocument_load PDFDocument_save
        generateFillFieldsPrompt generateText JSON_parse put toISOString).
#[local] Abbreviation tool :=
  (fillPdfForm_execute fetch pdfParse PDFDocument_load PDFDocument_save
                       generateFillFieldsPrompt generateText JSON_parse put toISOString).


End StructureNotChecked.


(* ===================================================================== *)
(** * 12. Further properties of the two parsers                           *)
(* ===================================================================== *)

Lemma hasChar_true_app c A B : hasChar c B = true -> hasChar c (A +:+ B) = true.
Proof. intros H. rewrite hasChar_app, H. apply orb_true_r. Qed.

(** The text after the first occurrence of a character holds whatever
    follows any occurrence of it. *)
Lemma after_first_occurrence c A B X R :
  A +:+ String c B = X +:+ String c R -> hasChar c A = false ->
  exists D, B = D +:+ R.
Proof.
  revert X. induction A as [|a A IH]; intros X HE HA.
  - destruct X as [|x X]; simpl in HE.
    + injection HE as ->. by exists "".
    + injection HE as _ ->. exists (X +:+ String c "").
      by rewrite app_assoc.
  - simpl in HA. apply orb_false_iff in HA as [Ha HA].
    destruct X as [|x X]; simpl in HE.
    + injection HE as -> _. by rewrite Ascii.eqb_refl in Ha.
    + injection HE as _ HE. by apply (IH X).
Qed.

(** X1. [extractJsonObject] returns, for every text, the slice from the
    first opening brace to the last closing brace of the text with its
    Python booleans rewritten: the trimming and the stripping of Markdown
    fences at its beginning never change the result, a value or the
    thrown error. *)
Theorem extractJsonObject_fences_redundant (text : string) :
  extractJsonObject text = sliceBraces (normalizeBooleans text).
Proof. exact (extractJsonObject_spec text). Qed.

(** The two outcomes of [extractJsonObject]. *)
Lemma extractJsonObject_cases (text : string) :
  (exists X M Y, text = X +:+ String "{" (M +:+ String "}" Y) /\
                 extractJsonObject text = Ok (String "{" (normalizeAfter "{" M +:+ "}"))) \/
  (extractJsonObject text = Throw "No JSON object found in model output" /\
   ~ (exists X M Y, text = X +:+ String "{" (M +:+ String "}" Y))).
Proof.
  destruct (hasChar "{" text) eqn:Hopen; cycle 1.
  { right. split; [by apply extractJsonObject_no_open|].
    intros (X & M & Y & ->).
    rewrite hasChar_app in Hopen. simpl in Hopen.
    by rewrite orb_true_r in Hopen. }
  apply first_occurrence in Hopen as (A & B & -> & HA).
  destruct (hasChar "}" B) eqn:Hclose; cycle 1.
  { right. split; [by apply extractJsonObject_no_close_after|].
    intros (X & M & Y & HE).
    destruct (after_first_occurrence _ _ _ _ _ HE HA) as [D ->].
    rewrite !hasChar_app in Hclose. simpl in Hclose.
    by rewrite !orb_true_r in Hclose. }
  apply last_occurrence in Hclose as (M & Y & -> & HY).
  left. exists A, M, Y. split; [done|]. by apply extractJsonObject_framed.
Qed.

(** X2. [extractJsonObject] returns a string exactly when the text has an
    opening brace somewhere before a closing brace, and the string it
    returns begins with an opening and ends with a closing brace; in every
    other case it throws 'No JSON object found in model output'. *)
Theorem extractJsonObject_returns_iff (text : string) :
  ((exists r, extractJsonObject text = Ok r) <->
   (exists X M Y, text = X +:+ String "{" (M +:+ String "}" Y))) /\
  (extractJsonObject text = Throw "No JSON object found in model output" <->
   ~ (exists X M Y, text = X +:+ String "{" (M +:+ String "}" Y))) /\
  (forall r, extractJsonObject text = Ok r -> exists M, r = String "{" (M +:+ "}")).
Proof.
  destruct (extractJsonObject_cases text) as [(X & M & Y & HE & HR)|[HT HN]].
  - repeat split.
    + intros _. by exists X, M, Y.
    + intros _. by eexists.
    + rewrite HR. discriminate.
    + intros HN. destruct HN. by exists X, M, Y.
    + intros r Hr. rewrite HR in Hr. injection Hr as <-. by eexists.
  - repeat split.
    + intros [r Hr]. rewrite HT in Hr. discriminate.
    + intros H. by destruct HN.
    + done.
    + done.
    + intros r Hr. rewrite HT in Hr. discriminate.
Qed.

(** X3. Whatever stands before the first opening brace and after the last
    closing brace (commentary, white space, fences with or without a tag)
    is discarded by [extractJsonObject]; what stands between the two braces
    is returned with the whole words True and False in lower case and
    nothing else changed. *)
Theorem extractJsonObject_keeps_the_braced_part (X M Y : string) :
  hasChar "{" X = false -> hasChar "}" Y = false ->
  extractJsonObject (X +:+ String "{" (M +:+ String "}" Y)) =
  Ok (String "{" (normalizeAfter "{" M +:+ "}")).
Proof.
  intros HX HY. rewrite extractJsonObject_spec.
  rewrite (normalizeBooleans_app "{") by done.
  rewrite (normalizeAfter_app "{" "}") by done.
  apply sliceBraces_framed.
  - apply hasChar_normalizeBooleans; [by left|done].
  - apply hasChar_normalizeAfter; [by right|done].
Qed.

Lemma extractJsonObject_keeps_the_braced_part_witness :
  extractJsonObject ("Sure: ```" +:+ String "{" (" True, Truest " +:+ String "}" "``` (done)")) =
  Ok "{ true, Truest }".
Proof.
  exact (extractJsonObject_keeps_the_braced_part
           "Sure: ```" " True, Truest " "``` (done)" eq_refl eq_refl).
Defined.

(** ** [cleanAIResponse] *)

Lemma trimStart_blank_app p s : blank p = true -> trimStart (p +:+ s) = trimStart s.
Proof.
  induction p as [|c p IH]; simpl; [done|].
  intros [Hc Hp]%andb_true_iff. rewrite Hc. by apply IH.
Qed.

Lemma trimEnd_blank p : blank p = true -> trimEnd p = "".
Proof.
  induction p as [|c p IH]; simpl; [done|].
  intros [Hc Hp]%andb_true_iff. by rewrite (IH Hp), Hc.
Qed.

Lemma trim_idempotent s : trim (trim s) = trim s.
Proof.
  unfold trim. rewrite (trimStart_id (trimEnd (trimStart s))).
  - apply trimEnd_idempotent.
  - apply trimEnd_cleanStart, trimStart_cleanStart.
Qed.

Lemma startsWith_prefix P Q : startsWith (P +:+ Q) P = true.
Proof.
  unfold startsWith. induction P as [|c P IH]; simpl; [by destruct Q|].
  by destruct (ascii_dec c c).
Qed.

Lemma endsWith_suffix P Q : endsWith (P +:+ Q) Q = true.
Proof.
  unfold endsWith. rewrite length_app.
  replace (String.length P + String.length Q - String.length Q) with (String.length P) by lia.
  rewrite substringFrom_app_ge by lia. rewrite Nat.sub_diag. simpl.
  rewrite String.eqb_refl, andb_true_r. apply Nat.leb_le. lia.
Qed.

Lemma substringTo_prefix P Q : substringTo (String.length P) (P +:+ Q) = P.
Proof. rewrite substringTo_app_le by lia. by apply substringTo_all. Qed.

Lemma prefix_hasChar c p t : String.prefix (String c p) t = true -> hasChar c t = true.
Proof.
  destruct t as [|x t]; simpl; [done|].
  destruct (ascii_dec c x) as [->|Hne]; [by rewrite Ascii.eqb_refl|done].
Qed.

Lemma endsWith_hasChar c p t : endsWith t (String c p) = true -> hasChar c t = true.
Proof.
  unfold endsWith. intros [_ H]%andb_true_iff. apply String.eqb_eq in H.
  destruct (hasChar c t) eqn:Hc; [done|].
  apply (hasChar_substringFrom c (String.length t - String.length (String c p))) in Hc.
  rewrite H in Hc. simpl in Hc. by rewrite Ascii.eqb_refl in Hc.
Qed.

(** X4. [cleanAIResponse] unwraps a fence tagged [json]: whatever the white
    space around the fence, the result is the trimmed text between the
    opening "```json" and the closing "```". *)
Theorem cleanAIResponse_unwraps_json_fence (before inner after : string) :
  blank before = true -> blank after = true ->
  cleanAIResponse (before +:+ "```json" +:+ inner +:+ "```" +:+ after) = trim inner.
Proof.
  intros Hb Ha. unfold cleanAIResponse.
  assert (Ht : trim (before +:+ "```json" +:+ inner +:+ "```" +:+ after)
               = "```json" +:+ inner +:+ "```").
  { unfold trim. rewrite trimStart_blank_app by done.
    change (trimStart ("```json" +:+ inner +:+ "```" +:+ after))
      with ("```json" +:+ inner +:+ "```" +:+ after).
    replace ("```json" +:+ inner +:+ "```" +:+ after)
      with (("```json" +:+ inner +:+ "``") +:+ String "`" after)
      by (by rewrite !app_assoc).
    rewrite trimEnd_app by done. rewrite trimEnd_blank by done.
    by rewrite !app_assoc. }
  cbv zeta. rewrite Ht.
  rewrite (startsWith_prefix "```json").
  change (substringFrom 7 ("```json" +:+ inner +:+ "```")) with (inner +:+ "```").
  rewrite endsWith_suffix. unfold substring.
  rewrite length_app. change (String.length "```") with 3.
  replace (String.length inner + 3 - 3 - 0) with (String.length inner) by lia.
  change (substringFrom 0 (inner +:+ "```")) with (inner +:+ "```").
  by rewrite substringTo_prefix.
Qed.

Lemma cleanAIResponse_unwraps_json_fence_witness :
  cleanAIResponse ("  " +:+ "```json" +:+ " {} " +:+ "```" +:+ " ") = "{}".
Proof.
  exact (cleanAIResponse_unwraps_json_fence "  " " {} " " " eq_refl eq_refl).
Defined.

(** X5. [cleanAIResponse] removes an opening fence only when it is spelled
    "```json": of a text between "```" and "```" that does not go on with
    the lower-case tag (no tag, or JSON in capitals), it removes the
    closing fence and keeps the opening one. *)
Theorem cleanAIResponse_keeps_untagged_fence (inner : string) :
  startsWith inner "json" = false ->
  cleanAIResponse ("```" +:+ inner +:+ "```") = "```" +:+ trimEnd inner.
Proof.
  intros Htag. unfold cleanAIResponse.
  assert (Ht : trim ("```" +:+ inner +:+ "```") = "```" +:+ inner +:+ "```").
  { unfold trim.
    change (trimStart ("```" +:+ inner +:+ "```")) with ("```" +:+ inner +:+ "```").
    replace ("```" +:+ inner +:+ "```") with (("```" +:+ inner +:+ "``") +:+ String "`" "")
      by (by rewrite !app_assoc).
    by rewrite trimEnd_app. }
  cbv zeta. rewrite Ht.
  assert (Hs : startsWith ("```" +:+ inner +:+ "```") "```json" = false).
  { change (startsWith ("```" +:+ inner +:+ "```") "```json")
      with (startsWith (inner +:+ String "`" "``") "json").
    by rewrite startsWith_app. }
  rewrite Hs.
  replace ("```" +:+ inner +:+ "```") with (("```" +:+ inner) +:+ "```")
    by (by rewrite !app_assoc).
  rewrite endsWith_suffix. unfold substring.
  rewrite length_app. change (String.length "```") with 3.
  replace (String.length ("```" +:+ inner) + 3 - 3 - 0)
    with (String.length ("```" +:+ inner)) by lia.
  change (substringFrom 0 (("```" +:+ inner) +:+ "```")) with (("```" +:+ inner) +:+ "```").
  rewrite substringTo_prefix. unfold trim.
  change (trimStart ("```" +:+ inner)) with ("```" +:+ inner).
  change ("```" +:+ inner) with (String "`" (String "`" (String "`" inner))).
  by rewrite !trimEnd_cons_nonws.
Qed.

Lemma cleanAIResponse_keeps_untagged_fence_witness :
  cleanAIResponse ("```" +:+ "JSON {} " +:+ "```") = "```JSON {}".
Proof. exact (cleanAIResponse_keeps_untagged_fence "JSON {} " eq_refl). Defined.

(** X6. Of a response without a backquote [cleanAIResponse] removes the
    white space at the two ends and nothing else: text before or after the
    JSON stays, and so do Python booleans. *)
Theorem cleanAIResponse_only_trims (responseText : string) :
  hasChar "`" responseText = false ->
  cleanAIResponse responseText = trim responseText.
Proof.
  intros H. unfold cleanAIResponse.
  assert (Ht : hasChar "`" (trim responseText) = false).
  { by apply hasChar_trimEnd, hasChar_trimStart. }
  cbv zeta.
  destruct (startsWith (trim responseText) "```json") eqn:Hs.
  { apply prefix_hasChar in Hs. congruence. }
  destruct (endsWith (trim responseText) "```") eqn:He.
  { apply endsWith_hasChar in He. congruence. }
  apply trim_idempotent.
Qed.

Lemma cleanAIResponse_only_trims_witness :
  cleanAIResponse " Here you are: {} " = "Here you are: {}".
Proof. exact (cleanAIResponse_only_trims " Here you are: {} " eq_refl). Defined.

(* ===================================================================== *)
(** * 13. Further properties of sanitizeFieldValues                       *)
(* ===================================================================== *)

Lemma prefix_refl s : String.prefix s s = true.
Proof.
  induction s as [|c s IH]; simpl; [done|]. by destruct (ascii_dec c c).
Qed.

Lemma prefix_substringTo n s : String.prefix (substringTo n s) s = true.
Proof.
  revert n. induction s as [|c s IH]; intros [|n]; simpl; try done.
  by destruct (ascii_dec c c).
Qed.

Lemma findField_Some_iff fields k :
  (exists f, findField fields k = Some f) <-> exists f, f ∈ fields /\ name f = JsStr k.
Proof.
  split.
  - intros [f Hf]. exists f. by apply findField_name.
  - intros (f & Hin & Hname). destruct (findField fields k) as [g|] eqn:Hfind; [by exists g|].
    unfold findField in Hfind. apply list_elem_of_In in Hin.
    pose proof (find_none _ _ Hfind f Hin) as Hno. cbv beta in Hno.
    rewrite Hname in Hno. simpl in Hno. by rewrite String.eqb_refl in Hno.
Qed.

(** A stored value fits the positive maxLength of its descriptor. *)
Lemma sanitized_fits (raw : gmap string JsValue) fields k s f n :
  sanitizeFieldValues raw fields !! k = Some s ->
  findField fields k = Some f -> maxLength f = Some (S n) ->
  String.length s <= S n.
Proof.
  intros Hs Hf Hn.
  apply sanitize_Some in Hs as (v & f' & _ & Hf' & _ & -> & _).
  rewrite Hf in Hf'. injection Hf' as <-.
  destruct (sanitizedValueOf_shape f v) as [_ Hfit].
  unfold exceedsMaxLength in Hfit. rewrite Hn in Hfit.
  apply Nat.ltb_ge in Hfit. lia.
Qed.

(** X7. The truncation law of [sanitizeFieldValues]: a value stored under
    the name of a field whose (first) descriptor declares a positive
    maxLength has at most that many characters, and no stored value begins
    with white space. *)
Theorem sanitize_respects_maxLength
    (raw : gmap string JsValue) (fields : list PDFField) (k s : string)
    (f : PDFField) (n : nat) :
  sanitizeFieldValues raw fields !! k = Some s ->
  findField fields k = Some f -> maxLength f = Some n -> n ≠ 0 ->
  String.length s <= n /\ cleanStart s.
Proof.
  intros Hs Hf Hn Hpos. destruct n as [|n]; [done|]. split.
  - by apply (sanitized_fits raw fields k s f n).
  - apply sanitize_Some in Hs as (v & f' & _ & _ & _ & -> & _).
    apply sanitizedValueOf_shape.
Qed.

Lemma sanitize_respects_maxLength_witness :
  String.length "Jonathan Alexander S" <= 20 /\ cleanStart "Jonathan Alexander S".
Proof.
  refine (sanitize_respects_maxLength scenarioRaw scenarioFields "full_name"
            "Jonathan Alexander S"
            {| name := JsStr "full_name"; label := JsStr "full_name";
               type := JsStr "text"; maxLength := Some 20 |} 20 _ eq_refl eq_refl _).
  - vm_compute. reflexivity.
  - discriminate.
Defined.

Lemma scenarioRaw_inherits :
  map_Forall (fun _ v => inheritsToString v = true) scenarioRaw.
Proof.
  unfold scenarioRaw.
  repeat (apply map_Forall_insert_2; [reflexivity|]). apply map_Forall_empty.
Qed.

(** X8. [sanitizeFieldValues] invents nothing.  For a raw record on whose
    values [toString] can be called (none is an object with a [toString]
    property of its own, or an array holding one: there the call throws),
    every value stored is a beginning of the trimmed text that
    [value.toString()] gives for the truthy value under the same key, and
    it is the whole trimmed text when the field's descriptor declares no
    maxLength. *)
Theorem sanitize_value_is_prefix
    (raw : gmap string JsValue) (fields : list PDFField) (k s : string) :
  map_Forall (fun _ v => inheritsToString v = true) raw ->
  sanitizeFieldValues raw fields !! k = Some s ->
  exists v f, raw !! k = Some v /\ truthy v = true /\ inheritsToString v = true /\
              findField fields k = Some f /\
              startsWith (trim (toString v)) s = true /\
              (maxLength f = None -> s = trim (toString v)).
Proof.
  intros Hraw Hs. apply sanitize_Some in Hs as (v & f & Hv & Hf & Ht & -> & _).
  exists v, f. repeat split; try done.
  - by apply (Hraw k).
  - unfold sanitizedValueOf, startsWith, substring.
    destruct (exceedsMaxLength f (trim (toString v))).
    + apply prefix_substringTo.
    + apply prefix_refl.
  - intros Hn. unfold sanitizedValueOf, exceedsMaxLength. by rewrite Hn.
Qed.

Lemma sanitize_value_is_prefix_witness :
  exists v f, scenarioRaw !! "full_name" = Some v /\ truthy v = true /\
              inheritsToString v = true /\
              findField scenarioFields "full_name" = Some f /\
              startsWith (trim (toString v)) "Jonathan Alexander S" = true /\
              (maxLength f = None -> "Jonathan Alexander S" = trim (toString v)).
Proof.
  refine (sanitize_value_is_prefix scenarioRaw scenarioFields "full_name"
            "Jonathan Alexander S" scenarioRaw_inherits _).
  vm_compute. reflexivity.
Defined.

(** X9. Which keys [sanitizeFieldValues] keeps.  For a raw record on whose
    values [toString] can be called (none is an object with a [toString]
    property of its own, or an array holding one: there the call throws
    and nothing is returned), a key is in the result exactly when the raw
    record holds a truthy value under it, some descriptor has it as its
    name, and it is not [__proto__] (an assignment to that key of a plain
    object creates no property). *)
Theorem sanitize_keeps_exactly
    (raw : gmap string JsValue) (fields : list PDFField) (k : string) :
  map_Forall (fun _ v => inheritsToString v = true) raw ->
  (k ∈ dom (sanitizeFieldValues raw fields) <->
   (exists v, raw !! k = Some v /\ truthy v = true) /\
   (exists f, f ∈ fields /\ name f = JsStr k) /\
   k ≠ "__proto__").
Proof.
  intros _. rewrite elem_of_dom. split.
  - intros [s Hs]. apply sanitize_Some in Hs as (v & f & Hv & Hf & Ht & _ & Hk).
    repeat split; [by exists v| |done]. apply findField_Some_iff. by exists f.
  - intros ((v & Hv & Ht) & Hf & Hk). apply findField_Some_iff in Hf as [f Hf].
    rewrite sanitize_lookup, Hv. simpl. unfold keptValue.
    apply String.eqb_neq in Hk. rewrite Hk, Hf, Ht. by eexists.
Qed.

Lemma sanitize_keeps_exactly_witness :
  "is_llc" ∈ dom (sanitizeFieldValues scenarioRaw scenarioFields) <->
  (exists v, scenarioRaw !! "is_llc" = Some v /\ truthy v = true) /\
  (exists f, f ∈ scenarioFields /\ name f = JsStr "is_llc") /\
  "is_llc" ≠ "__proto__".
Proof.
  exact (sanitize_keeps_exactly scenarioRaw scenarioFields "is_llc" scenarioRaw_inherits).
Defined.

(** X10. [sanitizeFieldValues] treats the entries of the raw record one by
    one: the result for two records with no key in common is the union of
    the two results, and the result for the empty record or for an empty
    list of descriptors is empty. *)
Theorem sanitize_entrywise (raw1 raw2 : gmap string JsValue) (fields : list PDFField) :
  raw1 ##ₘ raw2 ->
  sanitizeFieldValues (raw1 ∪ raw2) fields =
    sanitizeFieldValues raw1 fields ∪ sanitizeFieldValues raw2 fields /\
  sanitizeFieldValues ∅ fields = ∅ /\
  sanitizeFieldValues raw1 [] = ∅.
Proof.
  intros Hdisj. split; [|split].
  - apply map_eq. intros k. rewrite lookup_union, !sanitize_lookup, lookup_union.
    pose proof (map_disjoint_spec raw1 raw2) as [Hd _]. specialize (Hd Hdisj k).
    destruct (raw1 !! k) as [v1|] eqn:H1, (raw2 !! k) as [v2|] eqn:H2; simpl.
    + by destruct (Hd v1 v2).
    + by destruct (keptValue fields k v1).
    + by destruct (keptValue fields k v2).
    + done.
  - apply map_fold_empty.
  - apply map_eq. intros k. rewrite sanitize_lookup, lookup_empty.
    destruct (raw1 !! k) as [v|]; simpl; [|done].
    unfold keptValue. by destruct (String.eqb k "__proto__").
Qed.

Lemma sanitize_entrywise_witness :
  sanitizeFieldValues ({[ "full_name" := JsStr " Ada " ]} ∪ {[ "is_llc" := JsBool true ]})
                      scenarioFields =
    sanitizeFieldValues {[ "full_name" := JsStr " Ada " ]} scenarioFields ∪
    sanitizeFieldValues {[ "is_llc" := JsBool true ]} scenarioFields /\
  sanitizeFieldValues ∅ scenarioFields = ∅ /\
  sanitizeFieldValues {[ "full_name" := JsStr " Ada " ]} [] = ∅.
Proof.
  refine (sanitize_entrywise {[ "full_name" := JsStr " Ada " ]}
                             {[ "is_llc" := JsBool true ]} scenarioFields _).
  apply map_disjoint_singleton_l. vm_compute. reflexivity.
Defined.

(* ===================================================================== *)
(** * 14. Further properties of the fillers                               *)
(* ===================================================================== *)

Lemma fillFieldWithLib_form i x (form : PDFForm) console :
  fst (fillFieldWithLib i x (form, console)) =
  match getField form i with
  | Ok f => setField form i (fieldAfterWithLib i x f)
  | Throw _ => form
  end.
Proof.
  unfold fillFieldWithLib. destruct (getField form i) as [f|e] eqn:Hg; [|done].
  destruct f as [t ml| b | opts sel | opts sel | ]; simpl.
  - destruct (setText i ml x); simpl; [done|]. by rewrite (setField_same _ _ _ Hg).
  - by destruct (shouldCheckWithLib x).
  - destruct (includes opts x); simpl; [done|]. by rewrite (setField_same _ _ _ Hg).
  - destruct (includes opts x); simpl; [done|]. by rewrite (setField_same _ _ _ Hg).
  - by rewrite (setField_same _ _ _ Hg).
Qed.

Section ClosedForm.

Variable after : string -> string -> PDFFieldObject -> PDFFieldObject.

Lemma fillAll_empty (form : PDFForm) : fillAll after form ∅ = form.
Proof.
  induction form as [|[n f] form IH]; simpl; [done|].
  by rewrite lookup_empty, delete_empty, IH.
Qed.

Lemma fillAll_getField (form : PDFForm) (values : gmap string string) k :
  getField (fillAll after form values) k =
  match values !! k with
  | Some v => mapE (after k v) (getField form k)
  | None => getField form k
  end.
Proof.
  revert values. induction form as [|[n f] form IH]; intros values; simpl.
  - by destruct (values !! k).
  - destruct (String.eqb n k) eqn:Hn.
    + apply String.eqb_eq in Hn as ->. by destruct (values !! k).
    + apply String.eqb_neq in Hn. rewrite IH. by rewrite lookup_delete_ne.
Qed.

(** One more entry, under a name the record did not hold, is one more
    turn of the loop. *)
Lemma fillAll_insert (form : PDFForm) (m : gmap string string) i x :
  m !! i = None ->
  fillAll after form (<[i:=x]> m) =
  match getField (fillAll after form m) i with
  | Ok f => setField (fillAll after form m) i (after i x f)
  | Throw _ => fillAll after form m
  end.
Proof.
  revert m. induction form as [|[n f] form IH]; intros m Hi; simpl; [done|].
  destruct (String.eqb n i) eqn:Hn.
  - apply String.eqb_eq in Hn as ->.
    by rewrite lookup_insert_eq, Hi, delete_insert_eq.
  - pose proof Hn as Hne. apply String.eqb_neq in Hne.
    rewrite lookup_insert_ne by done. rewrite delete_insert_ne by done.
    rewrite IH by (by rewrite lookup_delete_ne).
    destruct (getField (fillAll after form (delete n m)) i); simpl; by rewrite ?Hn.
Qed.

Lemma fold_closed_form
    (step : string -> string -> PDFForm * list Console -> PDFForm * list Console) :
  (forall i x form console,
      fst (step i x (form, console)) =
      match getField form i with
      | Ok f => setField form i (after i x f)
      | Throw _ => form
      end) ->
  forall (form : PDFForm) c0 (values : gmap string string),
    fst (map_fold step (form, c0) values) = fillAll after form values.
Proof.
  intros Hstep form c0.
  apply (map_fold_weak_ind
           (fun r (m : gmap string string) => fst r = fillAll after form m)).
  - simpl. by rewrite fillAll_empty.
  - intros i x m [f c] Hi IH. simpl in IH. subst f.
    by rewrite Hstep, fillAll_insert.
Qed.

(** Entries under names the form does not have change nothing. *)
Lemma fillAll_delete_absent (form : PDFForm) (m : gmap string string) k e :
  getField form k = Throw e -> fillAll after form (delete k m) = fillAll after form m.
Proof.
  revert m. induction form as [|[n f] form IH]; intros m; simpl; [done|].
  destruct (String.eqb n k) eqn:Hn; [discriminate|]. intros Hg.
  apply String.eqb_neq in Hn.
  rewrite lookup_delete_ne by done. by rewrite (delete_delete m n k), IH.
Qed.

End ClosedForm.

Lemma fillAll_ext after1 after2 (form : PDFForm) (values : gmap string string) :
  (forall k v f, values !! k = Some v -> after1 k v f = after2 k v f) ->
  fillAll after1 form values = fillAll after2 form values.
Proof.
  revert values. induction form as [|[n f] form IH]; intros values H; simpl; [done|].
  f_equal.
  - destruct (values !! n) eqn:Hn; [|done]. by rewrite (H n s f).
  - apply IH. intros k v g Hk. apply lookup_delete_Some in Hk as [_ Hk]. by apply H.
Qed.

Lemma fieldAfter_idempotent k v f : fieldAfter k v (fieldAfter k v f) = fieldAfter k v f.
Proof.
  destruct f as [t ml| b | opts sel | opts sel | ]; simpl; try done.
  - destruct (setText k ml v) as [f'|e] eqn:Hs; simpl; [|by rewrite Hs].
    unfold setText in Hs.
    destruct ml as [n|]; [destruct (n <? String.length v) eqn:Hn; [done|]|];
      injection Hs as <-; simpl; unfold setText; by rewrite ?Hn.
  - destruct (includes opts v) eqn:Hi; simpl; by rewrite Hi.
  - destruct (includes opts v) eqn:Hi; simpl; by rewrite Hi.
Qed.

Lemma fillAll_idempotent (form : PDFForm) (values : gmap string string) :
  fillAll fieldAfter (fillAll fieldAfter form values) values = fillAll fieldAfter form values.
Proof.
  revert values. induction form as [|[n f] form IH]; intros values; simpl; [done|].
  f_equal; [|apply IH].
  destruct (values !! n); [|done]. by rewrite fieldAfter_idempotent.
Qed.

(** X11. The form [fillPDFFields] leaves does not depend on the order in
    which [Object.entries] lists the values: the first field of each name
    is changed by the entry under its name, if there is one, and every
    other field is as it was loaded.  The same holds for
    [fillPDFFieldsWithLib]. *)
Theorem fillers_closed_form (form : PDFForm) (values : gmap string string) :
  fst (fillFields form values) = fillAll fieldAfter form values /\
  fst (fillFieldsWithLib form values) = fillAll fieldAfterWithLib form values.
Proof.
  split.
  - apply fold_closed_form. apply fillField_form.
  - apply fold_closed_form. apply fillFieldWithLib_form.
Qed.

(** X12. Filling is idempotent: [fillPDFFields] applied with the same
    values to the form it has just filled leaves that form as it is. *)
Theorem fill_twice_same_form (form : PDFForm) (values : gmap string string) :
  fst (fillFields (fst (fillFields form values)) values) = fst (fillFields form values).
Proof.
  unfold fillFields. rewrite !(fold_closed_form fieldAfter) by apply fillField_form.
  apply fillAll_idempotent.
Qed.

(** X13. [fillPDFFields] writes one console line for each entry of the
    record after its heading line, whether the entry was used, skipped or
    failed. *)
Theorem fillFields_one_line_per_entry (form : PDFForm) (values : gmap string string) :
  length (snd (fillFields form values)) = S (size values).
Proof.
  unfold fillFields.
  set (c0 := [ConsoleLog "Filling PDF with values:" [JsObj (asValues values)]]).
  change (S (size values)) with (length c0 + size values).
  clearbody c0.
  apply (map_fold_weak_ind
           (fun r (m : gmap string string) => length (snd r) = length c0 + size m)).
  - simpl. rewrite map_size_empty. lia.
  - intros i x m [f c] Hi IH. rewrite fillField_console. simpl in *.
    rewrite List.length_app, IH, map_size_insert_None by done. simpl. lia.
Qed.

Lemma fillFieldsWithLib_getField (form : PDFForm) (values : gmap string string) k :
  getField (fst (fillFieldsWithLib form values)) k =
  match values !! k with
  | Some v => mapE (fieldAfterWithLib k v) (getField form k)
  | None => getField form k
  end.
Proof.
  unfold fillFieldsWithLib.
  rewrite (fold_closed_form fieldAfterWithLib) by apply fillFieldWithLib_form.
  apply fillAll_getField.
Qed.

(** X14. The two fillers differ by the word "checked" only: on a record
    none of whose values is that word, in any letter case,
    [fillPDFFieldsWithLib] leaves the same form as [fillPDFFields]. *)
Theorem withLib_agrees_unless_checked (form : PDFForm) (values : gmap string string) :
  (forall k v, values !! k = Some v -> toLowerCase v ≠ "checked") ->
  fst (fillFieldsWithLib form values) = fst (fillFields form values).
Proof.
  intros H. unfold fillFieldsWithLib, fillFields.
  rewrite (fold_closed_form fieldAfterWithLib) by apply fillFieldWithLib_form.
  rewrite (fold_closed_form fieldAfter) by apply fillField_form.
  apply fillAll_ext. intros k v f Hk.
  destruct f as [t ml| b | opts sel | opts sel | ]; simpl; try done.
  f_equal. unfold shouldCheck, shouldCheckWithLib.
  apply H, String.eqb_neq in Hk. rewrite Hk. by rewrite orb_false_r.
Qed.

Lemma withLib_agrees_unless_checked_witness :
  fst (fillFieldsWithLib [("agree", PDFCheckBox false); ("title", PDFTextField None None)]
                         {[ "agree" := "Yes" ]}) =
  fst (fillFields [("agree", PDFCheckBox false); ("title", PDFTextField None None)]
                  {[ "agree" := "Yes" ]}).
Proof.
  apply withLib_agrees_unless_checked.
  intros k v [_ <-]%lookup_singleton_Some. discriminate.
Defined.

(** X15. Sanitizing against the descriptors of a document prepares the
    values for that document: every key of the sanitized record names a
    field of the form, and a value for a text field (whose maximal length
    is not 0) always fits, so [fillPDFFields] writes it into the field. *)
Theorem sanitized_text_is_written
    (raw : gmap string JsValue) (form : PDFForm) (k s : string) :
  sanitizeFieldValues raw (describeFields form) !! k = Some s ->
  exists f, getField form k = Ok f /\
    forall t ml, f = PDFTextField t ml -> ml ≠ Some 0 ->
      getField (fst (fillFields form (sanitizeFieldValues raw (describeFields form)))) k
      = Ok (PDFTextField (if String.eqb s "" then None else Some s) ml).
Proof.
  intros Hs. pose proof Hs as Hs'.
  apply sanitize_Some in Hs' as (v & f0 & _ & Hf0 & _).
  rewrite findField_describeFields in Hf0.
  destruct (getField form k) as [f|e] eqn:Hg; [|done].
  exists f. split; [done|]. intros t ml -> Hml.
  rewrite fillFields_getField, Hs, Hg. simpl. unfold setText.
  destruct ml as [[|n]|]; [done| |done].
  assert (Hfit : String.length s <= S n).
  { apply (sanitized_fits raw (describeFields form) k s
             (describeField (k, PDFTextField t (Some (S n)))) n); [done| |done].
    by rewrite findField_describeFields, Hg. }
  apply Nat.ltb_ge in Hfit. by rewrite Hfit.
Qed.

Lemma sanitized_text_is_written_witness :
  exists f,
    getField [("full_name", PDFTextField None (Some 20)); ("is_llc", PDFCheckBox false)]
             "full_name" = Ok f /\
    forall t ml, f = PDFTextField t ml -> ml ≠ Some 0 ->
      getField
        (fst (fillFields
                [("full_name", PDFTextField None (Some 20)); ("is_llc", PDFCheckBox false)]
                (sanitizeFieldValues scenarioRaw
                   (describeFields [("full_name", PDFTextField None (Some 20));
                                    ("is_llc", PDFCheckBox false)]))))
        "full_name"
      = Ok (PDFTextField (if String.eqb "Jonathan Alexander S" "" then None
                          else Some "Jonathan Alexander S") ml).
Proof.
  apply (sanitized_text_is_written scenarioRaw
           [("full_name", PDFTextField None (Some 20)); ("is_llc", PDFCheckBox false)]
           "full_name" "Jonathan Alexander S").
  vm_compute. reflexivity.
Defined.

(** X16. A value whose key names no field of the form costs only a
    warning: [fillPDFFields] records 'Could not fill field' with the error
    of [form.getField] and leaves the form it would leave without that
    entry. *)
Theorem missing_field_only_warns
    (form : PDFForm) (values : gmap string string) (k v e : string) :
  values !! k = Some v -> getField form k = Throw e ->
  fst (fillFields form values) = fst (fillFields form (delete k values)) /\
  ConsoleWarn ("Could not fill field '" +:+ k +:+ "':") [JsStr e]
    ∈ snd (fillFields form values).
Proof.
  intros Hv Hg. split.
  - unfold fillFields. rewrite !(fold_closed_form fieldAfter) by apply fillField_form.
    symmetry. by apply fillAll_delete_absent with e.
  - pose proof (fillFields_console_intro form
                  [ConsoleLog "Filling PDF with values:" [JsObj (asValues values)]]
                  values k v Hv) as Hin.
    by rewrite Hg in Hin.
Qed.

Lemma missing_field_only_warns_witness :
  fst (fillFields [("title", PDFTextField None None)]
                  (<["ghost" := "x"]> {[ "title" := "Dr" ]})) =
  fst (fillFields [("title", PDFTextField None None)]
                  (delete "ghost" (<["ghost" := "x"]> {[ "title" := "Dr" ]}))) /\
  ConsoleWarn ("Could not fill field '" +:+ "ghost" +:+ "':")
              [JsStr ("PDFDocument has no form field with the name " +:+ quoted "ghost")]
    ∈ snd (fillFields [("title", PDFTextField None None)]
                      (<["ghost" := "x"]> {[ "title" := "Dr" ]})).
Proof.
  apply (missing_field_only_warns [("title", PDFTextField None None)]
           (<["ghost" := "x"]> {[ "title" := "Dr" ]}) "ghost" "x"
           ("PDFDocument has no form field with the name " +:+ quoted "ghost")).
  - vm_compute. reflexivity.
  - reflexivity.
Defined.

(** X17. The checkbox rule of the two fillers: whatever its state before,
    a checkbox named by the record ends checked exactly when the
    lower-cased value is one of true, yes, 1, on, checked in
    [fillPDFFields], one of true, yes, 1, on in [fillPDFFieldsWithLib], and
    ends unchecked for every other value. *)
Theorem checkbox_rule_of_each_filler
    (form : PDFForm) (values : gmap string string) (k v : string) (b : bool) :
  values !! k = Some v -> getField form k = Ok (PDFCheckBox b) ->
  (exists c, getField (fst (fillFields form values)) k = Ok (PDFCheckBox c) /\
             (c = true <-> toLowerCase v ∈ ["true"; "yes"; "1"; "on"; "checked"])) /\
  (exists c, getField (fst (fillFieldsWithLib form values)) k = Ok (PDFCheckBox c) /\
             (c = true <-> toLowerCase v ∈ ["true"; "yes"; "1"; "on"])).
Proof.
  intros Hv Hg. split.
  - exists (shouldCheck v). rewrite fillFields_getField, Hv, Hg. split; [done|].
    apply shouldCheck_spec.
  - exists (shouldCheckWithLib v). rewrite fillFieldsWithLib_getField, Hv, Hg.
    split; [done|]. apply shouldCheckWithLib_spec.
Qed.

Lemma checkbox_rule_of_each_filler_witness :
  (exists c, getField (fst (fillFields [("agree", PDFCheckBox true)] {[ "agree" := "No" ]}))
                      "agree" = Ok (PDFCheckBox c) /\
             (c = true <-> toLowerCase "No" ∈ ["true"; "yes"; "1"; "on"; "checked"])) /\
  (exists c, getField (fst (fillFieldsWithLib [("agree", PDFCheckBox true)]
                                              {[ "agree" := "No" ]}))
                      "agree" = Ok (PDFCheckBox c) /\
             (c = true <-> toLowerCase "No" ∈ ["true"; "yes"; "1"; "on"])).
Proof.
  apply (checkbox_rule_of_each_filler [("agree", PDFCheckBox true)] {[ "agree" := "No" ]}
           "agree" "No" true).
  - vm_compute. reflexivity.
  - reflexivity.
Defined.

Lemma fieldAfter_radio k v f options selected' :
  fieldAfter k v f = PDFRadioGroup options selected' ->
  exists selected, f = PDFRadioGroup options selected /\
                   (selected' = selected \/ (selected' = Some v /\ v ∈ options)).
Proof.
  destruct f as [t ml| b | opts sel | opts sel | ]; simpl; try done.
  - destruct (setText k ml v) as [f'|e] eqn:Hs; [|done].
    unfold setText in Hs. intros ->.
    destruct ml as [n|]; [destruct (n <? String.length v)|]; done.
  - destruct (includes opts v) eqn:Hi; intros [= <- <-]; eexists; split; try done.
    + right. split; [done|]. by apply includes_elem_of.
    + by left.
  - by destruct (includes opts v).
Qed.

Lemma fieldAfter_dropdown k v f options selected' :
  fieldAfter k v f = PDFDropdown options selected' ->
  exists selected, f = PDFDropdown options selected /\
                   (selected' = selected \/ (selected' = [v] /\ v ∈ options)).
Proof.
  destruct f as [t ml| b | opts sel | opts sel | ]; simpl; try done.
  - destruct (setText k ml v) as [f'|e] eqn:Hs; [|done].
    unfold setText in Hs. intros ->.
    destruct ml as [n|]; [destruct (n <? String.length v)|]; done.
  - by destruct (includes opts v).
  - destruct (includes opts v) eqn:Hi; intros [= <- <-]; eexists; split; try done.
    + right. split; [done|]. by apply includes_elem_of.
    + by left.
Qed.

Lemma fieldAfterWithLib_choice k v f :
  (forall b, f ≠ PDFCheckBox b) -> fieldAfterWithLib k v f = fieldAfter k v f.
Proof. destruct f; simpl; try done. intros H. by destruct (H isChecked). Qed.

(** X18. Neither filler ever selects an option a choice field does not
    list: after [fillPDFFields] or [fillPDFFieldsWithLib], a radio group or
    a dropdown has the options it had, and its selection is the one it had
    or the value given for it, which then is one of its options. *)
Theorem fillers_select_only_listed_options
    (form : PDFForm) (values : gmap string string) (k : string) (options : list string) :
  let filled := fst (fillFields form values) in
  let filledWithLib := fst (fillFieldsWithLib form values) in
  (forall selected',
      getField filled k = Ok (PDFRadioGroup options selected') \/
      getField filledWithLib k = Ok (PDFRadioGroup options selected') ->
      exists selected,
        getField form k = Ok (PDFRadioGroup options selected) /\
        (selected' = selected \/
         exists v, values !! k = Some v /\ selected' = Some v /\ v ∈ options)) /\
  (forall selected',
      getField filled k = Ok (PDFDropdown options selected') \/
      getField filledWithLib k = Ok (PDFDropdown options selected') ->
      exists selected,
        getField form k = Ok (PDFDropdown options selected) /\
        (selected' = selected \/
         exists v, values !! k = Some v /\ selected' = [v] /\ v ∈ options)).
Proof.
  intros filled filledWithLib. subst filled filledWithLib. split; intros selected' H.
  - assert (Hroute : match values !! k with
                     | Some v => mapE (fieldAfter k v) (getField form k)
                     | None => getField form k
                     end = Ok (PDFRadioGroup options selected')).
    { destruct H as [H|H]; [by rewrite <- fillFields_getField|].
      rewrite fillFieldsWithLib_getField in H.
      destruct (values !! k) as [v|]; [|done].
      destruct (getField form k) as [f|e]; simpl in *; [|done].
      rewrite fieldAfterWithLib_choice in H; [done|].
      intros b ->. simpl in H. discriminate. }
    destruct (values !! k) as [v|]; [|by exists selected'; split; [|left]].
    destruct (getField form k) as [f|e]; simpl in Hroute; [|done].
    injection Hroute as Hroute.
    apply fieldAfter_radio in Hroute as (selected & -> & [->|[-> Hin]]).
    + exists selected. split; [done|by left].
    + exists selected. split; [done|]. right. by exists v.
  - assert (Hroute : match values !! k with
                     | Some v => mapE (fieldAfter k v) (getField form k)
                     | None => getField form k
                     end = Ok (PDFDropdown options selected')).
    { destruct H as [H|H]; [by rewrite <- fillFields_getField|].
      rewrite fillFieldsWithLib_getField in H.
      destruct (values !! k) as [v|]; [|done].
      destruct (getField form k) as [f|e]; simpl in *; [|done].
      rewrite fieldAfterWithLib_choice in H; [done|].
      intros b ->. simpl in H. discriminate. }
    destruct (values !! k) as [v|]; [|by exists selected'; split; [|left]].
    destruct (getField form k) as [f|e]; simpl in Hroute; [|done].
    injection Hroute as Hroute.
    apply fieldAfter_dropdown in Hroute as (selected & -> & [->|[-> Hin]]).
    + exists selected. split; [done|by left].
    + exists selected. split; [done|]. right. by exists v.
Qed.

Lemma fillers_select_only_listed_options_witness :
  exists selected,
    getField [("color", PDFRadioGroup ["red"; "blue"] (Some "red"))] "color"
      = Ok (PDFRadioGroup ["red"; "blue"] selected) /\
    (Some "blue" = selected \/
     exists v, ({[ "color" := "blue" ]} : gmap string string) !! "color" = Some v /\
               Some "blue" = Some v /\ v ∈ ["red"; "blue"]).
Proof.
  apply (proj1 (fillers_select_only_listed_options
                  [("color", PDFRadioGroup ["red"; "blue"] (Some "red"))]
                  {[ "color" := "blue" ]} "color" ["red"; "blue"]) (Some "blue")).
  left. vm_compute. reflexivity.
Defined.

(** X19. A value that is not among the options of a radio group or a
    dropdown changes nothing in either filler: the field keeps its options
    and its selection; [fillPDFFields] records the warning that names the
    field, the value and the available options. *)
Theorem invalid_option_keeps_selection
    (form : PDFForm) (values : gmap string string) (k v : string)
    (options : list string) (f : PDFFieldObject) :
  values !! k = Some v -> v ∉ options -> getField form k = Ok f ->
  (exists selected, f = PDFRadioGroup options selected) \/
  (exists selected, f = PDFDropdown options selected) ->
  getField (fst (fillFields form values)) k = Ok f /\
  getField (fst (fillFieldsWithLib form values)) k = Ok f /\
  ConsoleWarn ((if String.eqb (fieldTypeOf f) "radio" then "Radio" else "Dropdown") +:+
               " field '" +:+ k +:+ "' does not have option '" +:+ v +:+
               "'. Available options:") [JsArr (JsStr <$> options)]
    ∈ snd (fillFields form values).
Proof.
  intros Hv Hno Hg Hkind.
  destruct (fillFields_invalid_option form values k v options Hv Hno) as [Hradio Hdrop].
  assert (includes options v = false) as Hinc.
  { destruct (includes options v) eqn:E; [|done]. by apply includes_elem_of in E. }
  destruct Hkind as [[selected ->]|[selected ->]].
  - destruct (Hradio selected Hg) as [H1 H2]. repeat split; [done| |done].
    rewrite fillFieldsWithLib_getField, Hv, Hg. simpl. by rewrite Hinc.
  - destruct (Hdrop selected Hg) as [H1 H2]. repeat split; [done| |done].
    rewrite fillFieldsWithLib_getField, Hv, Hg. simpl. by rewrite Hinc.
Qed.

Lemma invalid_option_keeps_selection_witness :
  getField (fst (fillFields [("color", PDFRadioGroup ["red"; "blue"] (Some "red"))]
                            {[ "color" := "green" ]})) "color"
    = Ok (PDFRadioGroup ["red"; "blue"] (Some "red")) /\
  getField (fst (fillFieldsWithLib [("color", PDFRadioGroup ["red"; "blue"] (Some "red"))]
                                   {[ "color" := "green" ]})) "color"
    = Ok (PDFRadioGroup ["red"; "blue"] (Some "red")) /\
  ConsoleWarn "Radio field 'color' does not have option 'green'. Available options:"
              [JsArr [JsStr "red"; JsStr "blue"]]
    ∈ snd (fillFields [("color", PDFRadioGroup ["red"; "blue"] (Some "red"))]
                      {[ "color" := "green" ]}).
Proof.
  apply (invalid_option_keeps_selection
           [("color", PDFRadioGroup ["red"; "blue"] (Some "red"))]
           {[ "color" := "green" ]} "color" "green" ["red"; "blue"]
           (PDFRadioGroup ["red"; "blue"] (Some "red"))).
  - vm_compute. reflexivity.
  - rewrite !elem_of_cons, elem_of_nil. intros [H|[H|[]]]; discriminate H.
  - reflexivity.
  - left. by eexists.
Defined.

(* ===================================================================== *)
(** * 15. Further properties of the extraction and of the request handler *)
(* ===================================================================== *)

(** X20. What [extractPDFFields] returns: one descriptor for each field of
    the form, in document order, whose name and label are the field's name,
    whose type is one of text, checkbox, radio, dropdown, unknown, and whose
    maxLength, present on text fields only, is never 0; such a list always
    passes [validatePDFFields]. *)
Theorem extracted_descriptors_shape {Bytes : Type}
    (PDFDocument_load : Bytes -> Except PDFForm) (pdfBuffer : Bytes)
    (pdfFields : list PDFField) :
  extractPDFFields PDFDocument_load pdfBuffer = Ok pdfFields ->
  validatePDFFields pdfFields = true /\
  exists form,
    PDFDocument_load pdfBuffer = Ok form /\
    map name pdfFields = map (fun entry => JsStr (fst entry)) form /\
    Forall (fun f => label f = name f /\
                     (exists kind, type f = JsStr kind /\ validKind kind) /\
                     maxLength f ≠ Some 0 /\
                     (maxLength f ≠ None -> type f = JsStr "text")) pdfFields.
Proof.
  unfold extractPDFFields. destruct (PDFDocument_load pdfBuffer) as [form|e]; [|done].
  intros [= <-]. split; [apply validate_describeFields|].
  exists form. split; [done|]. split.
  - unfold describeFields. rewrite map_map. done.
  - unfold describeFields. apply Forall_map, Forall_forall. intros [n g] _. simpl.
    repeat split.
    + exists (fieldTypeOf g). split; [done|]. unfold validKind.
      destruct g; simpl; set_solver.
    + by destruct g as [t [[|m]|]| | | |].
    + by destruct g as [t [[|m]|]| | | |].
Qed.

Lemma extracted_descriptors_shape_witness :
  validatePDFFields (describeFields [("zip", PDFTextField None (Some 0));
                                     ("sign", PDFOtherField)]) = true.
Proof.
  exact (proj1 (extracted_descriptors_shape (Bytes := PDFForm) Ok
                  [("zip", PDFTextField None (Some 0)); ("sign", PDFOtherField)]
                  _ eq_refl)).
Defined.

Section Handler.

Context {Bytes : Type}.
Variable fetch : string -> Except (@FetchResponse Bytes).
Variable pdfParse : Bytes -> Except string.
Variable PDFDocument_load : Bytes -> Except PDFForm.
Variable PDFDocument_save : PDFForm -> Except Bytes.
Variable generateFillFieldsPrompt : string -> list PDFField -> string -> string.
Variable generateText : string -> string -> Except string.
Variable JSON_parse : string -> option JsValue.
Variable put : string -> Bytes -> Except string.
Variable toISOString : string.

#[local] Abbreviation handler :=
  (POST fetch pdfParse PDFDocument_load PDFDocument_save
        generateFillFieldsPrompt generateText JSON_parse put toISOString).
#[local] Abbreviation tool :=
  (fillPdfForm_execute fetch pdfParse PDFDocument_load PDFDocument_save
                       generateFillFieldsPrompt generateText JSON_parse put toISOString).

(** The four kinds of answers of the handler. *)
Lemma handler_cases authenticated body :
  (authenticated = false /\
   handler authenticated body = (failureBody "Unauthorized", 401)) \/
  (authenticated = true /\
   exists request, body = Ok request /\
     (pdfUrl request = "" \/ userInfo request = "") /\
     handler authenticated body
     = (failureBody "Missing required fields: pdfUrl and userInfo", 400)) \/
  (authenticated = true /\
   (forall request, body = Ok request -> pdfUrl request ≠ "" /\ userInfo request ≠ "") /\
   exists e, handler authenticated body = (failureBody e, 500)) \/
  (authenticated = true /\
   exists request url m,
     body = Ok request /\ pdfUrl request ≠ "" /\ userInfo request ≠ "" /\
     handler authenticated body
     = ({| success := true; filledPdfUrl := Some url;
           message := "PDF form filled successfully!"; fields := Some m |}, 200)).
Proof.
  unfold POST.
  destruct authenticated; simpl; [|by left].
  right.
  destruct body as [request|e]; simpl; cycle 1.
  { right. left. split; [done|]. split; [done|]. by exists e. }
  destruct (String.eqb (pdfUrl request) "") eqn:Hurl; simpl.
  { left. split; [done|]. exists request. apply String.eqb_eq in Hurl. auto. }
  destruct (String.eqb (userInfo request) "") eqn:Hinfo; simpl.
  { left. split; [done|]. exists request. apply String.eqb_eq in Hinfo. auto. }
  right. apply String.eqb_neq in Hurl, Hinfo.
  assert (Hreq : forall r, Ok request = Ok r -> pdfUrl r ≠ "" /\ userInfo r ≠ "").
  { by intros r [= <-]. }
  destruct (downloadPDFFromUrl fetch (pdfUrl request)) as [pdfBuffer|e]; simpl;
    [|left; eauto].
  unfold extractPDFFields.
  destruct (PDFDocument_load pdfBuffer) as [form|e] eqn:Hload; simpl; [|left; eauto].
  unfold afterExtraction. rewrite validate_describeFields. simpl.
  destruct (generateText _ _) as [text|e]; simpl; [|left; eauto].
  unfold afterModel.
  destruct (JSON_parse (cleanAIResponse text)) as [v|]; simpl; [|left; eauto].
  destruct (Object_entries v) as [entries|e]; simpl; [|left; eauto].
  destruct (fillPDFFields _ _ _ _).1 as [filled|e]; simpl; [|left; eauto].
  destruct (put _ filled) as [url|e]; simpl; [|left; eauto].
  right. split; [done|]. exists request, url. eauto 10.
Qed.

(** X21. The handler answers with status 400 only for a request without
    [pdfUrl] or without [userInfo]: the descriptors it extracts always pass
    [validatePDFFields], so its answer 'Invalid PDF fields extracted' is
    never given. *)
Theorem status_400_only_for_missing_fields
    (authenticated : bool) (body : Except FillPDFRequest) :
  (snd (handler authenticated body) = 400 <->
   authenticated = true /\
   exists request, body = Ok request /\ (pdfUrl request = "" \/ userInfo request = "")) /\
  (snd (handler authenticated body) = 400 ->
   fst (handler authenticated body)
   = failureBody "Missing required fields: pdfUrl and userInfo") /\
  handler authenticated body ≠ (failureBody "Invalid PDF fields extracted", 400).
Proof.
  destruct (handler_cases authenticated body)
    as [[Ha ->]|[(Ha & request & Hb & Hmiss & ->)|[(Ha & Hreq & e & ->)|
        (Ha & request & url & m & Hb & Hurl & Hinfo & ->)]]]; simpl.
  - repeat split; try done. intros [? _]. congruence.
  - repeat split; try done. by exists request.
  - repeat split; try done. intros (_ & request & Hb & Hmiss).
    destruct (Hreq request Hb). tauto.
  - repeat split; try done. intros (_ & request' & Hb' & Hmiss).
    rewrite Hb in Hb'. injection Hb' as <-. tauto.
Qed.

(** X22. The shape of the handler's answers: the status is 200, 400, 401
    or 500; it is 401 exactly for a request without a session and 200
    exactly when [success] is true; a successful answer carries the URL,
    the sanitized [fields] and the message 'PDF form filled successfully!';
    every other answer carries neither a URL nor [fields]. *)
Theorem handler_response_shape (authenticated : bool) (body : Except FillPDFRequest) :
  let response := fst (handler authenticated body) in
  let code := snd (handler authenticated body) in
  code ∈ [200; 400; 401; 500] /\
  (code = 401 <-> authenticated = false) /\
  (code = 200 <-> success response = true) /\
  (success response = true <->
   exists url m, response = {| success := true; filledPdfUrl := Some url;
                               message := "PDF form filled successfully!";
                               fields := Some m |}) /\
  (success response = false <->
   exists msg, response = failureBody msg).
Proof.
  destruct (handler_cases authenticated body)
    as [[Ha ->]|[(Ha & request & Hb & Hmiss & ->)|[(Ha & Hreq & e & ->)|
        (Ha & request & url & m & Hb & Hurl & Hinfo & ->)]]]; simpl; subst authenticated.
  all: repeat split; try done; eauto.
  all: try (rewrite !elem_of_cons; tauto).
  all: try (by intros (? & ? & ?)).
  all: try (by intros (? & ?)).
Qed.

(** X23. A download that the server answers with a status outside
    200..299 ends the request: the handler answers 500 with
    'Error downloading PDF: Failed to download PDF: <status> <statusText>',
    the [fillPdfForm] tool returns the same message after
    'Error filling PDF form: ', and neither carries [fields] or a URL. *)
Theorem download_failure_reported
    (request : FillPDFRequest) (response : @FetchResponse Bytes) :
  pdfUrl request ≠ "" -> userInfo request ≠ "" ->
  fetch (pdfUrl request) = Ok response -> ok response = false ->
  handler true (Ok request)
  = (failureBody ("Error downloading PDF: Failed to download PDF: " +:+
                  pretty (status response) +:+ " " +:+ statusText response), 500) /\
  tool request
  = failureBody ("Error filling PDF form: Error downloading PDF: Failed to download PDF: " +:+
                 pretty (status response) +:+ " " +:+ statusText response).
Proof.
  intros Hurl Hinfo Hfetch Hok. apply String.eqb_neq in Hurl, Hinfo.
  unfold POST, fillPdfForm_execute, downloadPDFFromUrl. simpl.
  rewrite Hurl, Hinfo, Hfetch. simpl. rewrite Hok. split; reflexivity.
Qed.


(** The two kinds of results of the tool. *)
Lemma tool_cases params :
  (exists e, tool params = failureBody ("Error filling PDF form: " +:+ e)) \/
  (exists url m,
     tool params
     = {| success := true; filledPdfUrl := Some url;
          message := "Form filled successfully! The filled PDF is available at: " +:+ url;
          fields := Some m |}).
Proof.
  unfold fillPdfForm_execute.
  destruct (String.eqb (pdfUrl params) ""); [left; eauto|].
  destruct (String.eqb (userInfo params) ""); [left; eauto|].
  destruct (downloadPDFFromUrl fetch (pdfUrl params)) as [pdfBuffer|e]; simpl;
    [|left; eauto].
  destruct (extractPDFFields PDFDocument_load pdfBuffer) as [pdfFields|e]; simpl;
    [|left; eauto].
  destruct (validatePDFFields pdfFields); simpl; [|left; eauto].
  destruct (generateText _ _) as [text|e]; simpl; [|left; eauto].
  destruct (JSON_parse (cleanAIResponse text)) as [v|]; simpl; [|left; eauto].
  destruct (Object_entries v) as [entries|e]; simpl; [|left; eauto].
  destruct (fillPDFFields _ _ _ _).1 as [filled|e]; simpl; [|left; eauto].
  destruct (put _ filled) as [url|e]; simpl; [|left; eauto].
  right. eauto.
Qed.

(** X25. The [fillPdfForm] tool never throws and has two kinds of
    results: a failure, whose message begins with 'Error filling PDF
    form: ' and which carries neither a URL nor [fields], or a success
    with the URL, the sanitized [fields] and a message that ends with the
    URL. *)
Theorem tool_result_shape (params : FillPDFRequest) :
  (success (tool params) = false <->
   exists e, tool params = failureBody ("Error filling PDF form: " +:+ e)) /\
  (success (tool params) = true <->
   exists url m,
     tool params
     = {| success := true; filledPdfUrl := Some url;
          message := "Form filled successfully! The filled PDF is available at: " +:+ url;
          fields := Some m |}).
Proof.
  destruct (tool_cases params) as [[e ->]|(url & m & ->)]; simpl.
  - repeat split; try done; eauto. by intros (? & ? & ?).
  - repeat split; try done; eauto. by intros (? & ?).
Qed.

End Handler.

Lemma download_failure_reported_witness :
  POST (Bytes := string)
       (fun _ => Ok {| ok := false; status := 404; statusText := "Not Found";
                       arrayBuffer := "" |})
       (fun _ => Ok "") (fun _ => Ok []) (fun _ => Ok "")
       (fun _ _ info => info) (fun _ _ => Ok "{}") (fun _ => None)
       (fun _ _ => Ok "https://blob.example/filled-form.pdf")
       "2025-01-01T00:00:00.000Z"
       true
       (Ok {| pdfUrl := "https://example.org/w9.pdf"; userInfo := "Ada Lovelace";
              formType := None |})
  = (failureBody "Error downloading PDF: Failed to download PDF: 404 Not Found", 500).
Proof.
  refine (proj1 (download_failure_reported (Bytes := string) _ _ _ _ _ _ _ _ _
                   {| pdfUrl := "https://example.org/w9.pdf"; userInfo := "Ada Lovelace";
                      formType := None |}
                   {| ok := false; status := 404; statusText := "Not Found";
                      arrayBuffer := "" |} _ _ _ _));
    first [reflexivity | discriminate].
Defined.


Section TwoRuns.

(** The tool and the handler as two runs in one environment: each reads
    the clock when it names the file it stores. *)
Context {Bytes : Type}.
Variable fetch : string -> Except (@FetchResponse Bytes).
Variable pdfParse : Bytes -> Except string.
Variable PDFDocument_load : Bytes -> Except PDFForm.
Variable PDFDocument_save : PDFForm -> Except Bytes.
Variable generateFillFieldsPrompt : string -> list PDFField -> string -> string.
Variable generateText : string -> string -> Except string.
Variable JSON_parse : string -> option JsValue.
Variable put : string -> Bytes -> Except string.
Variables (handlerTime toolTime : string).


End TwoRuns.


(* ===================================================================== *)
(** * 16. The repair of booleans is idempotent                            *)
(* ===================================================================== *)

Lemma replaceWordFrom_skip w r u :
  forall prev rest,
    replaceWordFrom w r (String.length u) prev (u +:+ rest) =
    replaceWordFrom w r 0 (prevAfter prev u) rest.
Proof.
  induction u as [|c u IH]; intros prev rest; simpl; [done|]. apply IH.
Qed.

Lemma prefix_split p s : String.prefix p s = true -> exists rest, s = p +:+ rest.
Proof.
  revert s. induction p as [|c p IH]; intros s; simpl.
  - intros _. by exists s.
  - destruct s as [|x s]; simpl; [done|].
    destruct (ascii_dec c x) as [->|]; [|done].
    intros [rest ->]%IH. by exists rest.
Qed.

Lemma replaceWordFrom_no_match w r prev s :
  noMatch w prev s = true -> replaceWordFrom w r 0 prev s = s.
Proof.
  revert prev. induction s as [|c s IH]; intros prev; [done|].
  cbn [noMatch replaceWordFrom]. intros [Hm Hrest]%andb_true_iff.
  apply negb_true_iff in Hm. rewrite Hm. by rewrite IH.
Qed.

Lemma wordBefore_prevAfter p p' u :
  wordBefore p = wordBefore p' -> wordBefore (prevAfter p u) = wordBefore (prevAfter p' u).
Proof. destruct u as [|c u]; simpl; [done|]. done. Qed.

Section OneWord.

(** A word and its replacement that differ in the first character only,
    as True and true, False and false. *)
Variables (a a' : ascii) (tail : string).
Hypothesis first_differs : Ascii.eqb a a' = false.
Hypothesis first_once : hasChar a tail = false.
Hypothesis lower_fresh : hasChar a' tail = false.
Hypothesis same_class : isWordChar a = isWordChar a'.

#[local] Abbreviation word := (String a tail).
#[local] Abbreviation lower := (String a' tail).

Lemma replaceWordFrom_match prev s :
  matchesWordAt word prev s = true ->
  exists rest,
    s = word +:+ rest /\
    replaceWordFrom word lower 0 prev s =
    lower +:+ replaceWordFrom word lower 0 (prevAfter (Some a) tail) rest.
Proof.
  intros Hm. pose proof Hm as Hm'. unfold matchesWordAt in Hm'.
  apply andb_true_iff in Hm' as [[_ Hp]%andb_true_iff _].
  apply prefix_split in Hp as [rest ->]. exists rest. split; [done|].
  change (word +:+ rest) with (String a (tail +:+ rest)) in *.
  cbn [replaceWordFrom]. rewrite Hm.
  change (String.length word - 1) with (String.length tail - 0).
  rewrite Nat.sub_0_r. by rewrite replaceWordFrom_skip.
Qed.

Lemma replacedAt_refl s : replacedAt a a' s s = true.
Proof.
  induction s as [|c s IH]; simpl; [done|]. by rewrite Ascii.eqb_refl, IH.
Qed.

Lemma replacedAt_app u s out :
  replacedAt a a' s out = true -> replacedAt a a' (u +:+ s) (u +:+ out) = true.
Proof.
  intros H. induction u as [|c u IH]; simpl; [done|]. by rewrite Ascii.eqb_refl, IH.
Qed.

Lemma replaceWordFrom_replacedAt n :
  forall prev s, String.length s <= n ->
    replacedAt a a' s (replaceWordFrom word lower 0 prev s) = true.
Proof.
  induction n as [|n IH]; intros prev s Hlen.
  - destruct s; [done|simpl in Hlen; lia].
  - destruct s as [|c s]; [done|].
    destruct (matchesWordAt word prev (String c s)) eqn:Hm.
    + destruct (replaceWordFrom_match _ _ Hm) as (rest & Hs & ->).
      rewrite Hs. simpl. rewrite Ascii.eqb_refl, (Ascii.eqb_refl a'), first_differs. simpl.
      apply replacedAt_app, IH.
      apply (f_equal String.length) in Hs. simpl in Hs. rewrite length_app in Hs.
      simpl in Hlen. lia.
    + cbn [replaceWordFrom]. rewrite Hm. simpl. rewrite Ascii.eqb_refl. simpl.
      apply IH. simpl in Hlen. lia.
Qed.

End OneWord.

Section Transfer.

(** What a pattern [p] without the character [a'] sees of a text is what
    it saw before some [a] became [a']. *)
Variables (a a' : ascii).
Hypothesis same_class : isWordChar a = isWordChar a'.

Lemma replacedAt_prefix p :
  hasChar a' p = false ->
  forall s out, replacedAt a a' s out = true ->
                String.prefix p out = true -> String.prefix p s = true.
Proof.
  induction p as [|c p IH]; intros Hp s out Hsim.
  - by destruct s.
  - simpl in Hp. apply orb_false_iff in Hp as [Hc Hp].
    destruct s as [|x s], out as [|y out]; simpl in Hsim; try done.
    apply andb_true_iff in Hsim as [Hxy Hsim]. simpl.
    destruct (ascii_dec c y) as [<-|]; [|done].
    intros Hpre. apply orb_true_iff in Hxy as [Hxy|Hxy].
    + apply Ascii.eqb_eq in Hxy as ->.
      destruct (ascii_dec c c); [|done]. by apply (IH Hp s out).
    + apply andb_true_iff in Hxy as [_ Hy]. apply Ascii.eqb_eq in Hy as ->.
      by rewrite Ascii.eqb_refl in Hc.
Qed.

Lemma replacedAt_wordAhead n :
  forall s out, replacedAt a a' s out = true ->
                wordAhead (substringFrom n out) = wordAhead (substringFrom n s).
Proof.
  induction n as [|n IH]; intros s out Hsim.
  - destruct s as [|x s], out as [|y out]; simpl in *; try done.
    apply andb_true_iff in Hsim as [Hxy _].
    apply orb_true_iff in Hxy as [Hxy|Hxy].
    + by apply Ascii.eqb_eq in Hxy as ->.
    + apply andb_true_iff in Hxy as [Hx Hy].
      apply Ascii.eqb_eq in Hx as ->. by apply Ascii.eqb_eq in Hy as ->.
  - destruct s as [|x s], out as [|y out]; simpl in *; try done.
    apply andb_true_iff in Hsim as [_ Hsim]. by apply IH.
Qed.

Lemma replacedAt_matches p q q' s out :
  hasChar a' p = false -> wordBefore q' = wordBefore q ->
  replacedAt a a' s out = true ->
  matchesWordAt p q' out = true -> matchesWordAt p q s = true.
Proof.
  intros Hp Hq Hsim. unfold matchesWordAt. rewrite Hq.
  rewrite (replacedAt_wordAhead _ s out Hsim).
  intros [[-> Hpre]%andb_true_iff ->]%andb_true_iff.
  by rewrite (replacedAt_prefix p Hp s out Hsim Hpre).
Qed.

Lemma replacedAt_noMatch p :
  hasChar a' p = false ->
  forall s out q q',
    wordBefore q' = wordBefore q -> replacedAt a a' s out = true ->
    noMatch p q s = true -> noMatch p q' out = true.
Proof.
  intros Hp. induction s as [|x s IH]; intros out q q' Hq Hsim; destruct out as [|y out];
    try done.
  cbn [noMatch]. intros [Hm Hrest]%andb_true_iff. apply andb_true_iff. split.
  - apply negb_true_iff. apply negb_true_iff in Hm.
    destruct (matchesWordAt p q' (String y out)) eqn:Hm'; [|done].
    by rewrite (replacedAt_matches p q q' _ _ Hp Hq Hsim Hm') in Hm.
  - pose proof Hsim as Hsim'. simpl in Hsim'.
    apply andb_true_iff in Hsim' as [Hxy Hsim'].
    apply (IH out (Some x) (Some y)); [|done|done]. simpl.
    apply orb_true_iff in Hxy as [Hxy|Hxy].
    + by apply Ascii.eqb_eq in Hxy as ->.
    + apply andb_true_iff in Hxy as [Hx Hy].
      apply Ascii.eqb_eq in Hx as ->. by apply Ascii.eqb_eq in Hy as ->.
Qed.

End Transfer.

Section Settled.

Variables (a a' : ascii) (tail : string).
Hypothesis first_differs : Ascii.eqb a a' = false.
Hypothesis first_once : hasChar a tail = false.
Hypothesis lower_fresh : hasChar a' tail = false.
Hypothesis same_class : isWordChar a = isWordChar a'.

#[local] Abbreviation word := (String a tail).
#[local] Abbreviation lower := (String a' tail).

(** No match begins inside a text without the first character of the word. *)
Lemma noMatch_app_fresh u :
  hasChar a u = false ->
  forall q t, noMatch word q (u +:+ t) = noMatch word (prevAfter q u) t.
Proof.
  induction u as [|c u IH]; intros Hu q t; [done|].
  simpl in Hu. apply orb_false_iff in Hu as [Hc Hu].
  change (String c u +:+ t) with (String c (u +:+ t)).
  cbn [noMatch prevAfter]. rewrite (IH Hu).
  assert (Hm : matchesWordAt word q (String c (u +:+ t)) = false).
  { unfold matchesWordAt. simpl. destruct (ascii_dec a c) as [->|]; simpl.
    - by rewrite Ascii.eqb_refl in Hc.
    - by rewrite andb_false_r. }
  by rewrite Hm.
Qed.

(** After the replacement the word matches nowhere. *)
Lemma replaceWordFrom_noMatch n :
  forall q q' s,
    String.length s <= n -> wordBefore q' = wordBefore q ->
    noMatch word q' (replaceWordFrom word lower 0 q s) = true.
Proof.
  induction n as [|n IH]; intros q q' s Hlen Hq.
  - destruct s; [done|simpl in Hlen; lia].
  - destruct s as [|c s]; [done|].
    destruct (matchesWordAt word q (String c s)) eqn:Hm.
    + destruct (replaceWordFrom_match a a' tail _ _ Hm) as (rest & Hs & ->).
      assert (Hfresh : hasChar a lower = false).
      { simpl. rewrite first_once. rewrite Ascii.eqb_sym, first_differs. done. }
      rewrite (noMatch_app_fresh lower Hfresh).
      apply IH.
      * apply (f_equal String.length) in Hs. simpl in Hs. rewrite length_app in Hs.
        simpl in Hlen. lia.
      * change (prevAfter q' lower) with (prevAfter (Some a') tail).
        apply wordBefore_prevAfter. simpl. by rewrite same_class.
    + cbn [replaceWordFrom]. rewrite Hm. cbn [noMatch]. apply andb_true_iff. split.
      * apply negb_true_iff.
        destruct (matchesWordAt word q'
                    (String c (replaceWordFrom word lower 0 (Some c) s))) eqn:Hm'; [|done].
        rewrite (replacedAt_matches a a' same_class word q q' (String c s)
                   (String c (replaceWordFrom word lower 0 (Some c) s))) in Hm; try done.
        -- simpl. by rewrite first_differs, lower_fresh.
        -- simpl. rewrite Ascii.eqb_refl. simpl.
           apply (replaceWordFrom_replacedAt a a' tail first_differs (String.length s)).
           lia.
      * apply IH; [simpl in Hlen; lia|done].
Qed.

End Settled.

Lemma normalizeAfter_idempotent prev M :
  normalizeAfter prev (normalizeAfter prev M) = normalizeAfter prev M.
Proof.
  unfold normalizeAfter.
  set (x := replaceWordFrom "True" "true" 0 (Some prev) M).
  set (y := replaceWordFrom "False" "false" 0 (Some prev) x).
  assert (Hx : noMatch "True" (Some prev) x = true).
  { by apply (replaceWordFrom_noMatch "T" "t" "rue" eq_refl eq_refl eq_refl eq_refl
                (String.length M)). }
  assert (HyT : noMatch "True" (Some prev) y = true).
  { apply (replacedAt_noMatch "F" "f" eq_refl "True" eq_refl x y (Some prev) (Some prev));
      [done| |done].
    by apply (replaceWordFrom_replacedAt "F" "f" "alse" eq_refl (String.length x)). }
  assert (HyF : noMatch "False" (Some prev) y = true).
  { by apply (replaceWordFrom_noMatch "F" "f" "alse" eq_refl eq_refl eq_refl eq_refl
                (String.length x)). }
  rewrite (replaceWordFrom_no_match "True" "true" _ _ HyT).
  by rewrite (replaceWordFrom_no_match "False" "false" _ _ HyF).
Qed.

Lemma normalizeBooleans_idempotent t :
  normalizeBooleans (normalizeBooleans t) = normalizeBooleans t.
Proof.
  unfold normalizeBooleans, replaceWord.
  set (x := replaceWordFrom "True" "true" 0 None t).
  set (y := replaceWordFrom "False" "false" 0 None x).
  assert (Hx : noMatch "True" None x = true).
  { by apply (replaceWordFrom_noMatch "T" "t" "rue" eq_refl eq_refl eq_refl eq_refl
                (String.length t)). }
  assert (HyT : noMatch "True" None y = true).
  { apply (replacedAt_noMatch "F" "f" eq_refl "True" eq_refl x y None None);
      [done| |done].
    by apply (replaceWordFrom_replacedAt "F" "f" "alse" eq_refl (String.length x)). }
  assert (HyF : noMatch "False" None y = true).
  { by apply (replaceWordFrom_noMatch "F" "f" "alse" eq_refl eq_refl eq_refl eq_refl
                (String.length x)). }
  rewrite (replaceWordFrom_no_match "True" "true" _ _ HyT).
  by rewrite (replaceWordFrom_no_match "False" "false" _ _ HyF).
Qed.

(** X27. [extractJsonObject] and its repair of booleans are idempotent: a
    second pass of the replacement of True and False changes nothing, and
    [extractJsonObject] applied to a string it returned returns that
    string. *)
Theorem extractJsonObject_idempotent (text r : string) :
  extractJsonObject text = Ok r ->
  extractJsonObject r = Ok r /\
  normalizeBooleans r = r /\
  normalizeBooleans (normalizeBooleans text) = normalizeBooleans text.
Proof.
  intros Hr. split; [|split]; [| |apply normalizeBooleans_idempotent].
  - destruct (extractJsonObject_cases text) as [(X & M & Y & _ & HR)|[HT _]];
      [|congruence].
    rewrite HR in Hr. injection Hr as <-.
    change (String "{" (normalizeAfter "{" M +:+ "}"))
      with ("" +:+ String "{" (normalizeAfter "{" M +:+ String "}" "")).
    rewrite extractJsonObject_framed by done. by rewrite normalizeAfter_idempotent.
  - destruct (extractJsonObject_cases text) as [(X & M & Y & _ & HR)|[HT _]];
      [|congruence].
    rewrite HR in Hr. injection Hr as <-.
    rewrite normalizeBooleans_framed. by rewrite normalizeAfter_idempotent.
Qed.

Lemma extractJsonObject_idempotent_witness :
  extractJsonObject "{true}" = Ok "{true}" /\
  normalizeBooleans "{true}" = "{true}" /\
  normalizeBooleans (normalizeBooleans "x: {True} ") = normalizeBooleans "x: {True} ".
Proof. exact (extractJsonObject_idempotent "x: {True} " "{true}" eq_refl). Defined.

(* ===================================================================== *)
(** * 17. The preprocessing of chat messages                              *)
(* ===================================================================== *)

Lemma preprocessPart_no_pdf part : isPdfPart (preprocessPart part) = false.
Proof.
  destruct part as [t|mt fn url|c]; simpl; try done.
  by destruct (String.eqb mt "application/pdf") eqn:E; simpl.
Qed.

Lemma preprocessPart_keeps part : isPdfPart part = false -> preprocessPart part = part.
Proof. destruct part as [t|mt fn url|c]; simpl; try done. by intros ->. Qed.

Lemma preprocessMessage_idempotent message :
  preprocessMessage (preprocessMessage message) = preprocessMessage message.
Proof.
  unfold preprocessMessage. simpl. f_equal. rewrite map_map.
  apply map_ext. intros part. apply preprocessPart_keeps, preprocessPart_no_pdf.
Qed.

(** X28. [preprocessMessage] replaces every PDF file part of a message, in
    place, by a text part that holds the line 'PDF URL for fillPdfForm
    tool: <url>' with the part's URL, and keeps every other part: the
    result has as many parts and no PDF file part, so preprocessing it
    again (as [POST] does with the stored messages of the user) changes
    nothing. *)
Theorem preprocessMessage_replaces_pdf_parts (message : ChatMessage) :
  let message' := preprocessMessage message in
  role message' = role message /\
  length (parts message') = length (parts message) /\
  Forall (fun part => isPdfPart part = false) (parts message') /\
  preprocessMessage message' = message' /\
  preprocessHistory (preprocessHistory [message]) = preprocessHistory [message] /\
  (forall i part, parts message !! i = Some part -> isPdfPart part = false ->
                  parts message' !! i = Some part) /\
  (forall i mediaType filename url,
      parts message !! i = Some (FilePart mediaType filename url) ->
      isPdfPart (FilePart mediaType filename url) = true ->
      exists before after,
        parts message' !! i
        = Some (TextPart (before +:+ "PDF URL for fillPdfForm tool: " +:+ url +:+ after))).
Proof.
  intros message'. subst message'. repeat split.
  - unfold preprocessMessage. simpl. by rewrite length_map.
  - unfold preprocessMessage. simpl. apply Forall_map, Forall_forall.
    intros part _. apply preprocessPart_no_pdf.
  - apply preprocessMessage_idempotent.
  - unfold preprocessHistory. simpl.
    destruct (String.eqb (role message) "user") eqn:Hrole; simpl; rewrite Hrole; [|done].
    by rewrite preprocessMessage_idempotent.
  - intros i part Hi Hpart. unfold preprocessMessage. simpl.
    rewrite list_lookup_fmap, Hi. simpl. by rewrite preprocessPart_keeps.
  - intros i mt fn url Hi Hpdf. unfold preprocessMessage. simpl.
    change (map preprocessPart (parts message)) with (preprocessPart <$> parts message).
    rewrite list_lookup_fmap, Hi. simpl in *. rewrite Hpdf.
    exists ("[PDF Document: " +:+ printedName fn +:+ "]" +:+ newline +:+ newline +:+
            "I have uploaded a PDF form titled " +:+ quoted (printedName fn) +:+ "." +:+
            newline +:+ newline),
           (newline +:+ newline +:+
            "Please help me fill out this form by asking me for the required information, " +:+
            "then use the fillPdfForm tool with the PDF URL above to complete it.").
    unfold pdfNotice. by rewrite !app_assoc.
Qed.

(* ===================================================================== *)
(** * 18. The extractPdfFormSpec tool                                     *)
(* ===================================================================== *)

Section SpecTool.

Context {Bytes : Type}.
Variable fetch : string -> Except (@FetchResponse Bytes).
Variable pdfParse : Bytes -> Except string.
Variable PDFDocument_load : Bytes -> Except PDFForm.
Variable generateQuestionSpecPrompt : string -> list PDFField -> string -> string.
Variable generateText : string -> string -> Except string.
Variable JSON_parse : string -> Except JsValue.
Variable typeError : string -> string.
Variables (bullet emDash : string).

#[local] Abbreviation specTool :=
  (extractPdfFormSpec_execute fetch pdfParse PDFDocument_load generateQuestionSpecPrompt
                              generateText JSON_parse typeError bullet emDash).
#[local] Abbreviation fromAnswer := (afterAnswer JSON_parse typeError bullet emDash).
#[local] Abbreviation specFailure :=
  (fun e => {| ExtractPdfFormSpec.success := false;
               ExtractPdfFormSpec.message := "Error generating question spec: " +:+ e;
               ExtractPdfFormSpec.questionSpec := None;
               ExtractPdfFormSpec.questionsText := None |}).

(** Once the model has answered, the result of the tool is the result of
    the decoding of the answer: a document without fields is not rejected. *)
Lemma specTool_after_answer pdfUrl userInfo (pdfBuffer : Bytes) (form : PDFForm) text :
  pdfUrl ≠ "" ->
  downloadPDFFromUrl fetch pdfUrl = Ok pdfBuffer ->
  PDFDocument_load pdfBuffer = Ok form ->
  generateText "chat-model"
               (generateQuestionSpecPrompt (extractPDFText pdfParse pdfBuffer)
                                           (describeFields form) (default "" userInfo))
  = Ok text ->
  specTool pdfUrl userInfo =
  match fromAnswer text with
  | Ok result => result
  | Throw e => specFailure e
  end.
Proof.
  intros Hurl Hdown Hload Hgen. unfold extractPdfFormSpec_execute.
  apply String.eqb_neq in Hurl. rewrite Hurl, Hdown. simpl.
  unfold extractPDFFields. rewrite Hload. simpl.
  rewrite validate_describeFields. simpl. by rewrite Hgen.
Qed.

Lemma keepsQuestion_blank q : blankQuestion q -> keepsQuestion typeError q = Ok false.
Proof.
  intros (m & -> & [Hq|(s & Hq & Hs)]); unfold keepsQuestion; simpl; rewrite Hq; simpl.
  - done.
  - destruct (String.eqb s "") eqn:E; simpl; [done|]. by rewrite Hs.
Qed.

Lemma filterQuestions_blank qs :
  Forall blankQuestion qs -> filterQuestions typeError qs = Ok [].
Proof.
  induction 1 as [|q qs Hq _ IH]; simpl; [done|].
  by rewrite (keepsQuestion_blank q Hq), IH.
Qed.

(** X29. The [extractPdfFormSpec] tool depends on [extractJsonObject] for
    its decoding: when the model's answer has no opening brace before a
    closing brace, the tool returns {success: false} with 'Error
    generating question spec: No JSON object found in model output'; when
    it has, [JSON.parse] is given the text from the first opening to the
    last closing brace with True and False in lower case, and its error,
    if any, is the tool's message. *)
Theorem spec_tool_decodes_the_braced_part
    (pdfUrl : string) (userInfo : option string) (pdfBuffer : Bytes) (form : PDFForm)
    (text : string) :
  pdfUrl ≠ "" ->
  downloadPDFFromUrl fetch pdfUrl = Ok pdfBuffer ->
  PDFDocument_load pdfBuffer = Ok form ->
  generateText "chat-model"
               (generateQuestionSpecPrompt (extractPDFText pdfParse pdfBuffer)
                                           (describeFields form) (default "" userInfo))
  = Ok text ->
  (~ (exists X M Y, text = X +:+ String "{" (M +:+ String "}" Y)) ->
   specTool pdfUrl userInfo = specFailure "No JSON object found in model output") /\
  (forall X M Y e,
      text = X +:+ String "{" (M +:+ String "}" Y) ->
      hasChar "{" X = false -> hasChar "}" Y = false ->
      JSON_parse (String "{" (normalizeAfter "{" M +:+ "}")) = Throw e ->
      specTool pdfUrl userInfo = specFailure e).
Proof.
  intros Hurl Hdown Hload Hgen.
  rewrite (specTool_after_answer pdfUrl userInfo pdfBuffer form text) by done.
  unfold afterAnswer. split.
  - intros Hno. destruct (extractJsonObject_cases text) as [(X & M & Y & HE & _)|[-> _]].
    + destruct Hno. by exists X, M, Y.
    + done.
  - intros X M Y e -> HX HY Hparse.
    rewrite extractJsonObject_framed by done. simpl. by rewrite Hparse.
Qed.

(** X30. The tool tests that there are questions before it leaves out the
    blank ones: a decoded answer whose [questions] is missing or an empty
    array gives the failure 'Model returned no questions', while a
    non-empty array of questions that are all blank gives a success whose
    [questionsText] is empty. *)
Theorem spec_tool_guard_precedes_filter
    (pdfUrl : string) (userInfo : option string) (pdfBuffer : Bytes) (form : PDFForm)
    (text jsonText : string) (spec : JsValue) :
  pdfUrl ≠ "" ->
  downloadPDFFromUrl fetch pdfUrl = Ok pdfBuffer ->
  PDFDocument_load pdfBuffer = Ok form ->
  generateText "chat-model"
               (generateQuestionSpecPrompt (extractPDFText pdfParse pdfBuffer)
                                           (describeFields form) (default "" userInfo))
  = Ok text ->
  extractJsonObject text = Ok jsonText ->
  JSON_parse jsonText = Ok spec ->
  (getOptional spec "questions" = JsUndefined \/ getOptional spec "questions" = JsArr [] ->
   specTool pdfUrl userInfo = specFailure "Model returned no questions") /\
  (forall questions,
      getOptional spec "questions" = JsArr questions -> questions ≠ [] ->
      Forall blankQuestion questions ->
      specTool pdfUrl userInfo
      = {| ExtractPdfFormSpec.success := true;
           ExtractPdfFormSpec.message := "Question spec generated.";
           ExtractPdfFormSpec.questionSpec := Some spec;
           ExtractPdfFormSpec.questionsText := Some "" |}).
Proof.
  intros Hurl Hdown Hload Hgen Hjson Hparse.
  rewrite (specTool_after_answer pdfUrl userInfo pdfBuffer form text) by done.
  unfold afterAnswer. rewrite Hjson. simpl. rewrite Hparse. simpl. split.
  - unfold hasQuestions. by intros [-> | ->].
  - intros questions Hq Hne Hblank.
    assert (Hhas : hasQuestions spec = true).
    { unfold hasQuestions. rewrite Hq.
      change (getOptional (JsArr questions) "length")
        with (numberOfNat (length questions)).
      rewrite truthy_numberOfNat. by destruct questions. }
    rewrite Hhas. simpl.
    assert (Hget : getProperty spec "questions" = JsArr questions).
    { by destruct spec. }
    rewrite Hget. simpl. by rewrite filterQuestions_blank.
Qed.

End SpecTool.

Lemma spec_tool_decodes_the_braced_part_witness :
  extractPdfFormSpec_execute (Bytes := PDFForm)
    (fun _ => Ok {| ok := true; status := 200; statusText := "OK"; arrayBuffer := [] |})
    (fun _ => Ok "") Ok (fun _ _ info => info)
    (fun _ _ => Ok "I cannot read this form.")
    (fun _ => Throw "Unexpected token") (fun _ => "TypeError") "*" "-"
    "https://example.org/w9.pdf" None
  = {| ExtractPdfFormSpec.success := false;
       ExtractPdfFormSpec.message :=
         "Error generating question spec: No JSON object found in model output";
       ExtractPdfFormSpec.questionSpec := None;
       ExtractPdfFormSpec.questionsText := None |}.
Proof.
  refine (proj1 (spec_tool_decodes_the_braced_part (Bytes := PDFForm) _ _ _ _ _ _ _ _ _
                   "https://example.org/w9.pdf" None [] [] "I cannot read this form."
                   _ _ _ _) _); try reflexivity; try discriminate.
  intros (X & M & Y & H).
  assert (Hc : hasChar "{" "I cannot read this form." = true).
  { rewrite H, hasChar_app. simpl. by rewrite orb_true_r. }
  discriminate Hc.
Defined.

Lemma spec_tool_guard_precedes_filter_witness :
  extractPdfFormSpec_execute (Bytes := PDFForm)
    (fun _ => Ok {| ok := true; status := 200; statusText := "OK";
                    arrayBuffer := [("full_name", PDFTextField None None)] |})
    (fun _ => Ok "") Ok (fun _ _ info => info)
    (fun _ _ => Ok "{}")
    (fun _ => Ok (JsObj {[ "questions" := JsArr [JsObj {[ "question" := JsStr "  " ]}] ]}))
    (fun _ => "TypeError") "*" "-"
    "https://example.org/w9.pdf" None
  = {| ExtractPdfFormSpec.success := true;
       ExtractPdfFormSpec.message := "Question spec generated.";
       ExtractPdfFormSpec.questionSpec :=
         Some (JsObj {[ "questions" := JsArr [JsObj {[ "question" := JsStr "  " ]}] ]});
       ExtractPdfFormSpec.questionsText := Some "" |}.
Proof.
  refine (proj2 (spec_tool_guard_precedes_filter (Bytes := PDFForm) _ _ _ _ _ _ _ _ _
                   "https://example.org/w9.pdf" None
                   [("full_name", PDFTextField None None)]
                   [("full_name", PDFTextField None None)] "{}" "{}" _ _ _ _ _ _ _)
                [JsObj {[ "question" := JsStr "  " ]}] _ _ _);
    try reflexivity; try discriminate.
  constructor; [|constructor].
  exists {[ "question" := JsStr "  " ]}. split; [done|]. right.
  exists "  ". split; reflexivity.
Defined.
